(** * MpkLodz-CurrentStateOfVehicles: the feed refresher and cache of lib/server.js

    A shallow embedding of [lib/server.js] (and of the configuration wiring of
    [main.js]) together with the properties that the specification states
    about it.

    Conventions of the embedding.
    - A JavaScript string is the list of its UTF-16 code units ([jsstring]);
      the en dash of the separator class is the single unit U+2013.
    - Millisecond quantities of the server (intervals, [Date.now()]) are
      integers in the program ([main.js] reads them with [Number.parseInt]);
      they are modelled in [Z].  A configuration value that is not a finite number is a
      separate constructor.
    - Coordinates, bearing and speed are IEEE binary64 numbers, as in
      JavaScript: primitive floats.  The timestamp of a vehicle is what the
      decoder hands over for a 64-bit field, a [Long] object, or a number.
    - [null] and [undefined] are [None]; the places where the program tells an
      own property from an absent one ([hasOwnProperty]) use [field].
    - [JSON.stringify] and the SHA-1 digest are functions of the runtime; the
      server is parameterised by them. *)

From Stdlib Require Import ZArith NArith List Bool String Ascii Lia Floats.
From Stdlib Require Import DecimalString DecimalZ.
Import ListNotations.

(* ================================================================== *)
(** ** JavaScript strings *)

Module JsStr.

Definition jsstring := list N.

(** An ASCII literal as code units. *)
Definition str (s : string) : jsstring :=
  map N_of_ascii (list_ascii_of_string s).

(** WhiteSpace and LineTerminator code units: what [String.prototype.trim]
    strips and what the regular expression class [\s] matches. *)
Definition is_ws (c : N) : bool :=
  ((9 <=? c) && (c <=? 13)
   || (c =? 32) || (c =? 160) || (c =? 5760)
   || ((8192 <=? c) && (c <=? 8202))
   || (c =? 8232) || (c =? 8233) || (c =? 8239) || (c =? 8287)
   || (c =? 12288) || (c =? 65279))%N.

(** Line terminators: the units the regular expression [.] does not match. *)
Definition is_line_terminator (c : N) : bool :=
  ((c =? 10) || (c =? 13) || (c =? 8232) || (c =? 8233))%N.

Fixpoint trimStart (s : jsstring) : jsstring :=
  match s with
  | c :: s' => if is_ws c then trimStart s' else s
  | [] => []
  end.

Definition trimEnd (s : jsstring) : jsstring := rev (trimStart (rev s)).

Definition trim (s : jsstring) : jsstring := trimEnd (trimStart s).

(** Truthiness of a string value that may be [null]/[undefined]. *)
Definition truthy (v : option jsstring) : bool :=
  match v with
  | Some (_ :: _) => true
  | _ => false
  end.

(** [a || b] on string-or-nullish values. *)
Definition or_else (a b : option jsstring) : option jsstring :=
  if truthy a then a else b.

End JsStr.

Import JsStr.

(** A string that neither begins nor ends with white space. *)
Definition no_outer_ws (s : jsstring) : Prop :=
  (forall c t, s = c :: t -> is_ws c = false)
  /\ (forall t c, s = t ++ [c] -> is_ws c = false).

(** [h] occurs in [s]. *)
Definition occurs_in (h s : jsstring) : Prop :=
  exists a b, s = a ++ h ++ b.

(* ================================================================== *)
(** ** deriveHeadsignFromLabel *)

Module Headsign.

(** The class [[-–>]]. *)
Definition is_separator (c : N) : bool :=
  ((c =? 45) || (c =? 8211) || (c =? 62))%N.

(** [(.+)$] at the current position: one or more units, none of them a line
    terminator, up to the end of the input.  The group captures all of it. *)
Definition dot_plus_end (t : jsstring) : option jsstring :=
  match t with
  | [] => None
  | _ :: _ => if forallb (fun c => negb (is_line_terminator c)) t
              then Some t else None
  end.

(** [\s*(.+)$]: the star is greedy, and gives units back one at a time when
    the rest fails. *)
Fixpoint ws_star_then_capture (t : jsstring) : option jsstring :=
  match t with
  | c :: t' =>
      if is_ws c then
        match ws_star_then_capture t' with
        | Some r => Some r
        | None => dot_plus_end t
        end
      else dot_plus_end t
  | [] => dot_plus_end t
  end.

(** [[-–>]{1,2}\s*(.+)$] anchored at the head of [s]: two separators are
    tried before one. *)
Definition match_here (s : jsstring) : option jsstring :=
  match s with
  | c1 :: r1 =>
      if is_separator c1 then
        match r1 with
        | c2 :: r2 =>
            if is_separator c2 then
              match ws_star_then_capture r2 with
              | Some r => Some r
              | None => ws_star_then_capture r1
              end
            else ws_star_then_capture r1
        | [] => ws_star_then_capture r1
        end
      else None
  | [] => None
  end.

(** [text.match(/[-–>]{1,2}\s*(.+)$/)]: the leftmost position at which the
    pattern matches; the result is capture group 1. *)
Fixpoint separatorMatch (s : jsstring) : option jsstring :=
  match match_here s with
  | Some r => Some r
  | None =>
      match s with
      | _ :: s' => separatorMatch s'
      | [] => None
      end
  end.

Definition deriveHeadsignFromLabel (label : option jsstring) : option jsstring :=
  if negb (truthy label) then None
  else
    match label with
    | None => None
    | Some l =>
        let text := trim l in
        if negb (truthy (Some text)) then None
        else
          match separatorMatch text with
          | Some g => if truthy (Some g) then Some (trim g) else None
          | None => None
          end
    end.

End Headsign.

Import Headsign.

(* ================================================================== *)
(** ** The decoded feed and the records built from it *)

(** A property that [Object.prototype.hasOwnProperty] can tell from an absent
    one: [Absent] is not an own property, [Own v] is one, holding [v] ([None]
    when it holds [null] or [undefined]). *)
Inductive field (A : Type) : Type :=
| Absent : field A
| Own : option A -> field A.
Arguments Absent {A}.
Arguments Own {A} _.

Definition hasOwnProperty {A} (f : field A) : bool :=
  match f with Absent => false | Own _ => true end.

(** Reading the property. *)
Definition get {A} (f : field A) : option A :=
  match f with Absent => None | Own v => v end.

(** [a ?? b]. *)
Definition nullish_or {A} (a b : option A) : option A :=
  match a with Some _ => a | None => b end.

(** Truthiness of a number: neither zero (of either sign) nor NaN. *)
Definition num_truthy (x : float) : bool :=
  negb (PrimFloat.eqb x 0%float || PrimFloat.is_nan x).

(** [x || null] on a number that may be absent. *)
Definition num_or_null (x : option float) : option float :=
  match x with
  | Some v => if num_truthy v then Some v else None
  | None => None
  end.

(** The value of [vehicle.timestamp].  The decoder hands a [uint64] field
    over as a [Long] object, also when the field is 0 or absent from the wire;
    a decoder without 64-bit support hands over a number. *)
Inductive timestamp_value : Type :=
| Long (unsigned : Z)
| Seconds (x : float).

(** Truthiness: an object is truthy whatever it holds. *)
Definition timestamp_truthy (ts : timestamp_value) : bool :=
  match ts with
  | Long _ => true
  | Seconds x => num_truthy x
  end.

(** The binary64 number nearest to an integer (ties to even): what [Number]
    makes of the decimal form of a [Long]. *)
Definition Number_of_integer (v : Z) : float :=
  SF2Prim (binary_normalize prec emax v 0 false).

(** [Number(vehicle.timestamp)]. *)
Definition Number (ts : timestamp_value) : float :=
  match ts with
  | Long v => Number_of_integer v
  | Seconds x => x
  end.

Module Position.
Record t := mk
    { latitude : option float;
      longitude : option float;
      bearing : option float;
      speed : option float }.
End Position.

Module TripDescriptor.
Record t := mk
    { routeId : option jsstring;
      route_id : option jsstring;
      tripId : option jsstring;
      trip_id : option jsstring;
      tripHeadsign : option jsstring;
      trip_headsign : option jsstring;
      headsign : option jsstring;
      tripDestination : option jsstring;
      destination : option jsstring;
      directionId : field Z;
      direction_id : field Z;
      routeType : field Z;
      route_type : field Z }.

  (** The object [{}]. *)
Definition empty : t :=
    mk None None None None None None None None None Absent Absent Absent Absent.
End TripDescriptor.

Module VehicleDescriptor.
Record t := mk
    { id : option jsstring;
      label : option jsstring;
      type : field Z }.

Definition empty : t := mk None None Absent.
End VehicleDescriptor.

Module VehiclePosition.
Record t := mk
    { trip : option TripDescriptor.t;
      vehicle : option VehicleDescriptor.t;
      position : option Position.t;
      timestamp : option timestamp_value;   (* seconds since the epoch *)
      headsign : option jsstring }.
End VehiclePosition.

Module FeedEntity.
Record t := mk
    { id : option jsstring;
      vehicle : option VehiclePosition.t }.
End FeedEntity.

(** The object pushed on [items]. *)
Module Item.
Record t := mk
    { id : option jsstring;
      label : option jsstring;
      lat : option float;
      lon : option float;
      bearing : option float;
      speed : option float;
      routeId : option jsstring;
      tripId : option jsstring;
      timestamp : option float;    (* milliseconds *)
      headsign : option jsstring;
      directionId : option Z;
      vehicleType : option Z }.
End Item.

Module Decode.

(** The guard of the loop body:
    [!vehicle || !vehicle.position || latitude == null || longitude == null]. *)
Definition skipped (entity : FeedEntity.t) : bool :=
  match FeedEntity.vehicle entity with
  | None => true
  | Some vehicle =>
      match VehiclePosition.position vehicle with
      | None => true
      | Some position =>
          match Position.latitude position, Position.longitude position with
          | Some _, Some _ => false
          | _, _ => true
          end
      end
  end.

(** The entities the guard passes over, case by case: no vehicle, no
    position, or a position without latitude or longitude. *)
Definition lacks_coordinates (e : FeedEntity.t) : Prop :=
  FeedEntity.vehicle e = None
  \/ exists v, FeedEntity.vehicle e = Some v
       /\ (VehiclePosition.position v = None
           \/ exists p, VehiclePosition.position v = Some p
                /\ (Position.latitude p = None \/ Position.longitude p = None)).

(** The explicit headsign: the first truthy one of the six fields, or [null]. *)
Definition explicit_headsign (vehicle : VehiclePosition.t)
    (attribs : TripDescriptor.t) : option jsstring :=
  or_else (VehiclePosition.headsign vehicle)
   (or_else (TripDescriptor.tripHeadsign attribs)
    (or_else (TripDescriptor.trip_headsign attribs)
     (or_else (TripDescriptor.headsign attribs)
      (or_else (TripDescriptor.tripDestination attribs)
       (or_else (TripDescriptor.destination attribs) None))))).

(** [vehicle.trip || {}] and [vehicle.vehicle || {}]. *)
Definition trip_of (vehicle : VehiclePosition.t) : TripDescriptor.t :=
  match VehiclePosition.trip vehicle with
  | Some t => t
  | None => TripDescriptor.empty
  end.

Definition descriptor_of (vehicle : VehiclePosition.t) : VehicleDescriptor.t :=
  match VehiclePosition.vehicle vehicle with
  | Some d => d
  | None => VehicleDescriptor.empty
  end.

(** The six fields the loop reads for an explicit headsign, in the order in
    which it reads them. *)
Definition headsign_fields (vehicle : VehiclePosition.t)
  : list (option jsstring) :=
  [VehiclePosition.headsign vehicle;
   TripDescriptor.tripHeadsign (trip_of vehicle);
   TripDescriptor.trip_headsign (trip_of vehicle);
   TripDescriptor.headsign (trip_of vehicle);
   TripDescriptor.tripDestination (trip_of vehicle);
   TripDescriptor.destination (trip_of vehicle)].

(** The body of the loop after the guard, for a vehicle that has a position. *)
Definition build (entity : FeedEntity.t) (vehicle : VehiclePosition.t)
    (position : Position.t) : Item.t :=
  let trip := trip_of vehicle in
  let attribs := trip in
  let vehicleDescriptor := descriptor_of vehicle in
  let label_or_id := or_else (VehicleDescriptor.label vehicleDescriptor)
                             (VehicleDescriptor.id vehicleDescriptor) in
  let rawLabel := if truthy label_or_id then label_or_id else None in
  let rawVehicleType :=
    if hasOwnProperty (VehicleDescriptor.type vehicleDescriptor)
    then get (VehicleDescriptor.type vehicleDescriptor) else None in
  let rawRouteType :=
    if hasOwnProperty (TripDescriptor.routeType attribs)
    then get (TripDescriptor.routeType attribs)
    else if hasOwnProperty (TripDescriptor.route_type attribs)
         then get (TripDescriptor.route_type attribs) else None in
  let label := match rawLabel with Some l => Some (trim l) | None => None end in
  let headsign0 := explicit_headsign vehicle attribs in
  let headsign := if negb (truthy headsign0)
                  then deriveHeadsignFromLabel label else headsign0 in
  let directionIdProvided :=
    hasOwnProperty (TripDescriptor.directionId attribs)
    || hasOwnProperty (TripDescriptor.direction_id attribs) in
  let directionId :=
    if directionIdProvided
    then nullish_or (get (TripDescriptor.directionId attribs))
           (nullish_or (get (TripDescriptor.direction_id attribs)) None)
    else None in
  let vehicleType := match rawVehicleType with
                     | Some _ => rawVehicleType | None => rawRouteType end in
  {| Item.id := or_else
                  (or_else
                     (or_else (VehicleDescriptor.id vehicleDescriptor)
                              (VehicleDescriptor.label vehicleDescriptor))
                     (FeedEntity.id entity))
                  None;
     Item.label := label;
     Item.lat := Position.latitude position;
     Item.lon := Position.longitude position;
     Item.bearing := num_or_null (Position.bearing position);
     Item.speed := num_or_null (Position.speed position);
     Item.routeId := or_else (TripDescriptor.routeId trip) (TripDescriptor.route_id trip);
     Item.tripId := or_else (TripDescriptor.tripId trip) (TripDescriptor.trip_id trip);
     Item.timestamp := match VehiclePosition.timestamp vehicle with
                       | Some ts => if timestamp_truthy ts
                                    then Some (PrimFloat.mul (Number ts) 1000)
                                    else None
                       | None => None
                       end;
     Item.headsign := if truthy headsign
                      then match headsign with
                           | Some h => Some (trim h) | None => None end
                      else None;
     Item.directionId := directionId;
     Item.vehicleType := vehicleType |}.

(** One iteration of [for (const entity of feed.entity)]. *)
Definition visit (items : list Item.t) (entity : FeedEntity.t) : list Item.t :=
  if skipped entity then items
  else
    match FeedEntity.vehicle entity with
    | Some vehicle =>
        match VehiclePosition.position vehicle with
        | Some position => items ++ [build entity vehicle position]
        | None => items
        end
    | None => items
    end.

(** The whole loop, from [const items = []]. *)
Definition collect (entities : list FeedEntity.t) : list Item.t :=
  fold_left visit entities [].

End Decode.

(* ================================================================== *)
(** ** Configuration: the head of createServer, and main.js *)

Module Config.

(** A numeric option as [createServer] receives it: omitted ([== null]), a
    value whose [Number(...)] is NaN or infinite, or a finite number. *)
Inductive optnum : Type :=
| Omitted
| NotFinite
| Finite (z : Z).

Record options := mkOptions
  { feedUrl : option jsstring;
    opt_refreshIntervalMs : optnum;
    opt_staleAfterMs : optnum;
    opt_fetchTimeoutMs : optnum;
    opt_maxBackoffMs : optnum }.

(** The validated values the server closes over. *)
Record config := mkConfig
  { cfg_feedUrl : jsstring;
    refreshIntervalMs : Z;
    staleAfterMs : Z;
    fetchTimeoutMs : Z;
    maxBackoffMs : Z }.

Definition MIN_REFRESH_INTERVAL_MS : Z := 5000.
Definition MAX_BACKOFF_MULTIPLIER : Z := 16.

(** [o == null ? dflt : Number(o)]. *)
Definition or_default (o : optnum) (dflt : Z) : optnum :=
  match o with Omitted => Finite dflt | _ => o end.

(** [if (!Number.isFinite(x) || x <= bound) x = fallback]. *)
Definition reject_unless_above (x : optnum) (bound fallback : Z) : Z :=
  match x with
  | Finite z => if (z <=? bound)%Z then fallback else z
  | _ => fallback
  end.

Definition validate_refreshIntervalMs (o : optnum) : Z :=
  let r := reject_unless_above (or_default o 30000) 0 30000 in
  if (r <? MIN_REFRESH_INTERVAL_MS)%Z then MIN_REFRESH_INTERVAL_MS else r.

Definition validate_staleAfterMs (refreshIntervalMs : Z) (o : optnum) : Z :=
  let s := reject_unless_above (or_default o (refreshIntervalMs * 4))
             0 (refreshIntervalMs * 4) in
  let minimumStale := (refreshIntervalMs * 2)%Z in
  if (s <? minimumStale)%Z then minimumStale else s.

Definition validate_fetchTimeoutMs (o : optnum) : Z :=
  reject_unless_above (or_default o 10000) 0 10000.

Definition validate_maxBackoffMs (refreshIntervalMs : Z) (o : optnum) : Z :=
  let fallback := Z.max (refreshIntervalMs * 4) (5 * 60 * 1000) in
  reject_unless_above (or_default o (5 * 60 * 1000)) refreshIntervalMs fallback.

(** The configuration part of [createServer]; [None] is the thrown
    ['feedUrl is required to create the server']. *)
Definition createServer (o : options) : option config :=
  let r := validate_refreshIntervalMs (opt_refreshIntervalMs o) in
  let s := validate_staleAfterMs r (opt_staleAfterMs o) in
  let f := validate_fetchTimeoutMs (opt_fetchTimeoutMs o) in
  let m := validate_maxBackoffMs r (opt_maxBackoffMs o) in
  if truthy (feedUrl o)
  then match feedUrl o with
       | Some u => Some (mkConfig u r s f m)
       | None => None
       end
  else None.

(** [main.js]: an environment variable after [Number.parseInt(raw, 10)],
    [None] when the result is NaN (unset or not a number). *)
Definition parseEnvInt (parsed : option Z) (fallback : Z) : Z :=
  match parsed with Some z => z | None => fallback end.

Record env := mkEnv
  { ENV_REFRESH_INTERVAL_MS : option Z;
    ENV_STALE_AFTER_MS : option Z;
    ENV_FETCH_TIMEOUT_MS : option Z;
    ENV_MAX_BACKOFF_MS : option Z }.

Definition REFRESH_INTERVAL_MS (e : env) : Z :=
  parseEnvInt (ENV_REFRESH_INTERVAL_MS e) 30000.

Definition MAX_BACKOFF_MS (e : env) : Z :=
  parseEnvInt (ENV_MAX_BACKOFF_MS e)
    (Z.max (REFRESH_INTERVAL_MS e * 8) (5 * 60 * 1000)).

Definition main_options (url : jsstring) (e : env) : options :=
  {| feedUrl := Some url;
     opt_refreshIntervalMs := Finite (REFRESH_INTERVAL_MS e);
     opt_staleAfterMs :=
       Finite (parseEnvInt (ENV_STALE_AFTER_MS e) (REFRESH_INTERVAL_MS e * 4));
     opt_fetchTimeoutMs := Finite (parseEnvInt (ENV_FETCH_TIMEOUT_MS e) 10000);
     opt_maxBackoffMs := Finite (MAX_BACKOFF_MS e) |}.

End Config.

(* ================================================================== *)
(** ** The snapshot cache, the refresher and the HTTP handlers *)

Module Server.

Import Config.

(** An [Error] object, as far as the server reads it. *)
Record Error := mkError { name : jsstring; message : jsstring }.

(** What the upstream does with one refresh attempt.  [Rejected]: the promise
    of [fetchImpl] rejects (network failure, or the [AbortError] raised when
    the timeout aborts the request).  Otherwise a response, whose body either
    cannot be read, cannot be decoded, or decodes to the feed's entities. *)
Inductive payload : Type :=
| Unreadable (err : Error)
| Undecodable (err : Error)
| Decoded (entities : list FeedEntity.t).

Inductive upstream : Type :=
| Rejected (err : Error)
| Response (ok : bool) (status : Z) (statusText : jsstring) (body : payload).

Record state := mkState
  { vehicles : list Item.t;
    vehiclesJson : jsstring;
    vehiclesEtag : jsstring;
    lastUpdatedAtMs : Z;
    lastUpdateError : option Error;
    consecutiveFailures : Z }.

Record response := mkResponse
  { status : Z;
    headers : list (string * jsstring);
    contentType : option jsstring;
    body : option jsstring }.

(** The value of a header, the last [res.set] winning. *)
Fixpoint header (h : string) (hs : list (string * jsstring)) : option jsstring :=
  match hs with
  | [] => None
  | (k, v) :: hs' =>
      match header h hs' with
      | Some v' => Some v'
      | None => if String.eqb k h then Some v else None
      end
  end.

(** A number in a template literal or under [String(...)]: an integer prints
    in decimal. *)
Definition decimal (z : Z) : jsstring :=
  str (NilEmpty.string_of_int (Z.to_int z)).

Definition quote : N := 34.

Section WithRuntime.

(** [JSON.stringify] on the array of records, the hexadecimal SHA-1 digest
    and [Date.prototype.toISOString]. *)
Variable stringify : list Item.t -> jsstring.
Variable sha1hex : jsstring -> jsstring.
Variable toISOString : Z -> jsstring.

Definition computeEtag (lastUpdatedAtMs : Z) (vehiclesJson : jsstring) : jsstring :=
  let payload := vehiclesJson in
  let hash := sha1hex payload in
  if (lastUpdatedAtMs =? 0)%Z
  then str "W/" ++ [quote] ++ str "empty-" ++ hash ++ [quote]
  else [quote] ++ decimal lastUpdatedAtMs ++ str "-" ++ hash ++ [quote].

(** The state [createServer] starts from. *)
Definition initial : state :=
  {| vehicles := [];
     vehiclesJson := str "[]";
     vehiclesEtag := computeEtag 0 (str "[]");
     lastUpdatedAtMs := 0;
     lastUpdateError := None;
     consecutiveFailures := 0 |}.

(** The [try] block up to the end of the loop: the error thrown, or the
    items collected. *)
Definition attempt (up : upstream) : Error + list Item.t :=
  match up with
  | Rejected err => inl err
  | Response ok status statusText body =>
      if negb ok
      then inl (mkError (str "Error")
                  (str "HTTP " ++ decimal status ++ str " " ++ statusText))
      else match body with
           | Unreadable err => inl err
           | Undecodable err => inl err
           | Decoded entities => inr (Decode.collect entities)
           end
  end.

(** The tail of the [try] block: the snapshot is replaced. *)
Definition commit (st : state) (items : list Item.t) (snapshotTimestamp : Z) : state :=
  let json := stringify items in
  {| vehicles := items;
     vehiclesJson := json;
     vehiclesEtag := computeEtag snapshotTimestamp json;
     lastUpdatedAtMs := snapshotTimestamp;
     lastUpdateError := None;
     consecutiveFailures := 0 |}.

(** The [catch] block. *)
Definition recordFailure (st : state) (err : Error) : state :=
  {| vehicles := vehicles st;
     vehiclesJson := vehiclesJson st;
     vehiclesEtag := vehiclesEtag st;
     lastUpdatedAtMs := lastUpdatedAtMs st;
     lastUpdateError := Some err;
     consecutiveFailures := consecutiveFailures st + 1 |}.

(** The body of the in-flight operation: what one refresh does to the state,
    [now] being [Date.now()] when the loop has ended. *)
Definition update (st : state) (up : upstream) (now : Z) : state :=
  match attempt up with
  | inl err => recordFailure st err
  | inr items => commit st items now
  end.

(** The state after a history of refreshes, each with what the upstream
    answered and the clock at its commit. *)
Definition replay (st : state) (history : list (upstream * Z)) : state :=
  fold_left (fun s h => update s (fst h) (snd h)) history st.

(** [refresh()] with no refresh in flight: the new state and the value the
    returned promise resolves with. *)
Definition refresh (st : state) (up : upstream) (now : Z) : state * list Item.t :=
  let st' := update st up now in (st', vehicles st').

(** [ensureLatest()] with no refresh in flight. *)
Definition ensureLatest (st : state) (up : upstream) (now : Z) : state :=
  match vehicles st with
  | [] => fst (refresh st up now)
  | _ :: _ => st
  end.

(** *** Calls of refresh() that overlap

    The event loop runs one piece of code at a time, so the interleavings of
    concurrent callers are sequences of two kinds of events.  [CallRefresh c]:
    caller [c] runs [refresh()] up to its first suspension; with no operation
    in flight this starts one, which calls [fetchImpl] at once, and stores its
    promise in [inFlightUpdate]; otherwise the caller returns the stored
    promise.  [Settle up now]: the upstream answers [up], the operation runs
    its [try]/[catch] to the end and its promise is fulfilled (with no value:
    the operation has no [return]); the callers attached to it resume. *)

(** How a caller is attached to the promise: the one that created it awaits
    it and then runs [inFlightUpdate = null; return vehicles]; the others
    returned the promise itself from their [async] function. *)
Inductive attachment : Type := Awaits | Returned.

(** The value a caller's promise is fulfilled with. *)
Inductive resolution : Type :=
| Vehicles (v : list Item.t)
| Undefined.

Record system := mkSystem
  { cache : state;
    inFlightUpdate : option (list (nat * attachment));
    fetchCalls : nat;
    resolved : list (nat * resolution) }.

Inductive event : Type :=
| CallRefresh (caller : nat)
| Settle (up : upstream) (now : Z).

Definition resume (st : state) (w : nat * attachment) : nat * resolution :=
  match snd w with
  | Awaits => (fst w, Vehicles (vehicles st))
  | Returned => (fst w, Undefined)
  end.

Definition step (sys : system) (ev : event) : system :=
  match ev with
  | CallRefresh c =>
      match inFlightUpdate sys with
      | Some waiters =>
          mkSystem (cache sys) (Some (waiters ++ [(c, Returned)]))
            (fetchCalls sys) (resolved sys)
      | None =>
          mkSystem (cache sys) (Some [(c, Awaits)])
            (S (fetchCalls sys)) (resolved sys)
      end
  | Settle up now =>
      match inFlightUpdate sys with
      | Some waiters =>
          let st' := update (cache sys) up now in
          mkSystem st' None (fetchCalls sys)
            (resolved sys ++ map (resume st') waiters)
      | None => sys
      end
  end.

Definition run (sys : system) (evs : list event) : system :=
  fold_left step evs sys.

(** A server on which nothing is in flight. *)
Definition idle (st : state) (n : nat) : system := mkSystem st None n [].

Variable cfg : config.

(** The delay [scheduleNextRefresh] arms the timer with. *)
Definition backoffMultiplier (consecutiveFailures : Z) : Z :=
  Z.min (2 ^ Z.max 0 (consecutiveFailures - 1)) MAX_BACKOFF_MULTIPLIER.

Definition delay (consecutiveFailures : Z) : Z :=
  Z.min (refreshIntervalMs cfg * backoffMultiplier consecutiveFailures)
        (maxBackoffMs cfg).

(** [stalenessMs] and [isStale] of the two handlers. *)
Definition stalenessMs (st : state) (now : Z) : option Z :=
  if (lastUpdatedAtMs st =? 0)%Z then None else Some (now - lastUpdatedAtMs st)%Z.

Definition isStale (st : state) (now : Z) : bool :=
  match stalenessMs st now with
  | Some s => (staleAfterMs cfg <? s)%Z
  | None => false
  end.

(** The [isStale] member of [getState()]. *)
Definition getState_isStale (st : state) (now : Z) : bool :=
  if (lastUpdatedAtMs st =? 0)%Z then true
  else (staleAfterMs cfg <? now - lastUpdatedAtMs st)%Z.

(** [Math.ceil(x / 1000)]. *)
Definition ceil_div_1000 (x : Z) : Z := (- ((- x) / 1000))%Z.

(** [vehiclesEtag || computeEtag(lastUpdatedAtMs, vehiclesJson)]. *)
Definition currentEtag (st : state) : jsstring :=
  match vehiclesEtag st with
  | [] => computeEtag (lastUpdatedAtMs st) (vehiclesJson st)
  | _ :: _ => vehiclesEtag st
  end.

(** The handler of [GET /positions] after [await ensureLatest()]. *)
Definition positions (st : state) (now : Z) (if_none_match : option jsstring)
  : response :=
  let etag := currentEtag st in
  let h1 := [("Cache-Control"%string, str "public, max-age=1, must-revalidate");
             ("ETag"%string, etag)] in
  let h2 := if (lastUpdatedAtMs st =? 0)%Z then h1
            else h1 ++ [("X-Feed-Updated-At"%string, toISOString (lastUpdatedAtMs st))] in
  let h3 := match lastUpdateError st with
            | Some err =>
                h2 ++ [("X-Feed-Error"%string,
                        match message err with
                        | [] => str "Unknown error"
                        | m => m
                        end)]
            | None => h2
            end in
  let h4 := match stalenessMs st now with
            | Some s => h3 ++ [("X-Feed-Staleness-Ms"%string, decimal s)]
            | None => h3
            end in
  let stale := isStale st now in
  let h5 := if stale
            then h4 ++ [("X-Feed-Stale"%string, str "true");
                        ("Retry-After"%string,
                         decimal (ceil_div_1000 (refreshIntervalMs cfg)));
                        ("X-Feed-Warning"%string,
                         str "Data older than " ++ decimal (staleAfterMs cfg)
                           ++ str "ms")]
            else h4 in
  let matches := match if_none_match with
                 | Some v => if list_eq_dec N.eq_dec v etag then true else false
                 | None => false
                 end in
  if negb stale && matches
  then mkResponse 304 h5 None None
  else mkResponse (if stale then 503 else 200) h5
         (Some (str "application/json")) (Some (vehiclesJson st)).

(** The whole request, the server idle when it arrives: [up] and [tnow] are
    the upstream's answer and the clock of the refresh that [ensureLatest]
    may start, [now] the clock of the handler. *)
Definition GET_positions (st : state) (up : upstream) (tnow now : Z)
    (if_none_match : option jsstring) : state * response :=
  let st' := ensureLatest st up tnow in
  (st', positions st' now if_none_match).

End WithRuntime.

End Server.

(* ================================================================== *)
(** ** The rest of createServer: health, state view, timer, requests *)

(** The payload of [GET /healthz]. *)
Module Health.
Record t := mk
  { ok : bool;
    feedUrl : jsstring;
    refreshIntervalMs : Z;
    staleAfterMs : Z;
    lastUpdatedAt : option jsstring;
    stalenessMs : option Z;
    consecutiveFailures : Z;
    lastError : option jsstring }.   (* the [message] of the object, or null *)
End Health.

(** The object [getState()] returns. *)
Module StateView.
Record t := mk
  { vehicles : list Item.t;
    vehiclesJson : jsstring;
    lastUpdatedAtMs : Z;
    lastUpdateError : option Server.Error;
    etag : jsstring;
    refreshIntervalMs : Z;
    staleAfterMs : Z;
    fetchTimeoutMs : Z;
    consecutiveFailures : Z;
    isStale : bool }.
End StateView.

Module Service.

Import Config Server.

(** The [options] member of the object [createServer] returns. *)
Definition returned_options (cfg : config) : options :=
  mkOptions (Some (cfg_feedUrl cfg)) (Finite (refreshIntervalMs cfg))
    (Finite (staleAfterMs cfg)) (Finite (fetchTimeoutMs cfg))
    (Finite (maxBackoffMs cfg)).

(** The timer of the refresher.  [refreshTimer] is the timer that is armed,
    with its delay: [None] when none is (never armed, cleared, or expired; the
    variable of the source may still hold the handle of an expired timer, on
    which [clearTimeout] does nothing). *)
Record timers := mkTimers { refreshTimer : option Z; hasStopped : bool }.

(** Whether a caller's promise was fulfilled with the vehicle list, that is,
    whether it is the caller that started a fetch. *)
Definition started_fetch (r : nat * resolution) : bool :=
  match snd r with Vehicles _ => true | Undefined => false end.

(** Whether a caller attached to an operation is the one that awaits it in
    [refresh()], the one that started it. *)
Definition awaits (w : nat * attachment) : bool :=
  match snd w with Awaits => true | Returned => false end.

(** What reaches the server: an event of the refresher, or a request handler
    running [ensureLatest()] up to its first suspension. *)
Inductive request : Type :=
| Refresher (ev : event)
| CallEnsureLatest (caller : nat).

(** A complete flight: the caller that starts it, the callers that join it
    and how it settles. *)
Definition flight : Type := (nat * list nat * (upstream * Z))%type.

Definition flight_events (f : flight) : list event :=
  CallRefresh (fst (fst f)) :: map CallRefresh (snd (fst f))
    ++ [Settle (fst (snd f)) (snd (snd f))].

Section WithRuntime.

Variable stringify : list Item.t -> jsstring.
Variable sha1hex : jsstring -> jsstring.
Variable toISOString : Z -> jsstring.
Variable cfg : config.

(** [getState()], [now] being its [Date.now()]. *)
Definition getState (st : state) (now : Z) : StateView.t :=
  StateView.mk (vehicles st) (vehiclesJson st) (lastUpdatedAtMs st)
    (lastUpdateError st) (currentEtag sha1hex st)
    (refreshIntervalMs cfg) (staleAfterMs cfg) (fetchTimeoutMs cfg)
    (consecutiveFailures st) (getState_isStale cfg st now).

(** The handler of [GET /healthz]: the status and the JSON payload. *)
Definition healthz (st : state) (now : Z) : Z * Health.t :=
  let state := getState st now in
  let stalenessMs :=
    if (StateView.lastUpdatedAtMs state =? 0)%Z then None
    else Some (now - StateView.lastUpdatedAtMs state)%Z in
  let feedIsStale := match stalenessMs with
                     | Some s => (staleAfterMs cfg <? s)%Z
                     | None => false
                     end in
  let hadError := match lastUpdateError st with
                  | Some _ => true
                  | None => false
                  end in
  let statusOk := negb hadError && negb feedIsStale in
  let payload :=
    Health.mk statusOk (cfg_feedUrl cfg) (refreshIntervalMs cfg)
      (staleAfterMs cfg)
      (if (StateView.lastUpdatedAtMs state =? 0)%Z then None
       else Some (toISOString (StateView.lastUpdatedAtMs state)))
      stalenessMs (consecutiveFailures st)
      (match lastUpdateError st with
       | Some err =>
           Some (match message err with
                 | [] => match name err with
                         | [] => str "Error"
                         | _ :: _ => name err
                         end
                 | _ :: _ => message err
                 end)
       | None => None
       end) in
  ((if statusOk then 200 else 503)%Z, payload).

(** [scheduleNextRefresh()], with the state the delay is computed from. *)
Definition scheduleNextRefresh (st : state) (tm : timers) : timers :=
  if hasStopped tm then tm
  else mkTimers (Some (delay cfg (consecutiveFailures st))) false.

(** The part of [stop()] that concerns the refresher. *)
Definition stop (tm : timers) : timers := mkTimers None true.

(** The timer expires and its callback runs to the end,
    [await refresh(); scheduleNextRefresh()], no other refresh being in
    flight; with no timer armed nothing happens. *)
Definition expire (s : state * timers) (h : upstream * Z) : state * timers :=
  match refreshTimer (snd s) with
  | Some _ =>
      let st' := fst (refresh stringify sha1hex (fst s) (fst h) (snd h)) in
      (st', scheduleNextRefresh st' (mkTimers None (hasStopped (snd s))))
  | None => s
  end.

(** The part of [start()] that concerns the refresher:
    [await refresh(); hasStopped = false; scheduleNextRefresh()]. *)
Definition start (s : state * timers) (up : upstream) (now : Z)
  : state * timers :=
  let st' := fst (refresh stringify sha1hex (fst s) up now) in
  (st', scheduleNextRefresh st' (mkTimers (refreshTimer (snd s)) false)).

(** One request reaching the server.  [ensureLatest()] awaits the operation
    in flight when there is one (its caller resumes when it settles, with no
    value); otherwise it calls [refresh()] when the snapshot holds no vehicle,
    and returns at once when it holds one. *)
Definition serve (sys : system) (r : request) : system :=
  match r with
  | Refresher ev => step stringify sha1hex sys ev
  | CallEnsureLatest c =>
      match inFlightUpdate sys with
      | Some waiters =>
          mkSystem (cache sys) (Some (waiters ++ [(c, Returned)]))
            (fetchCalls sys) (resolved sys)
      | None =>
          match vehicles (cache sys) with
          | [] => step stringify sha1hex sys (CallRefresh c)
          | _ :: _ => sys
          end
      end
  end.

End WithRuntime.

End Service.


(* ================================================================== *)
(** ** Sample data

    A feed of one vehicle and a configuration in the manner of
    test/server.test.js, and stand-ins for the functions of the runtime, for
    the concrete instances of the properties below. *)

(** The vehicle: tram 12 at (51.75, 19.5), with bearing,
    speed and timestamp all zero and direction 0 given by the feed. *)
Definition sample_position : Position.t :=
  Position.mk (Some 51.75%float) (Some 19.5%float) (Some 0%float) (Some 0%float).

Definition sample_trip : TripDescriptor.t :=
  TripDescriptor.mk (Some (str "12")) None (Some (str "trip-12")) None
    None None None None None (Own (Some 0%Z)) Absent Absent Absent.

Definition sample_descriptor : VehicleDescriptor.t :=
  VehicleDescriptor.mk (Some (str "veh-1")) (Some (str "12-Lagiewnicka")) Absent.

Definition sample_vehicle : VehiclePosition.t :=
  VehiclePosition.mk (Some sample_trip) (Some sample_descriptor)
    (Some sample_position) (Some (Long 0)) None.

Definition sample_entity : FeedEntity.t :=
  FeedEntity.mk (Some (str "veh-1")) (Some sample_vehicle).

(** An entity that carries no position. *)
Definition sample_entity_without_position : FeedEntity.t :=
  FeedEntity.mk (Some (str "veh-2"))
    (Some (VehiclePosition.mk None (Some sample_descriptor) None None None)).

Definition sample_options : Config.options :=
  Config.mkOptions (Some (str "test://feed")) (Config.Finite 10000)
    (Config.Finite 2000) (Config.Finite 100) Config.Omitted.

Definition sample_config : Config.config :=
  Config.mkConfig (str "test://feed") 10000 20000 100 300000.

Definition sample_stringify (items : list Item.t) : jsstring :=
  str "[" ++ Server.decimal (Z.of_nat (List.length items)) ++ str "]".

Definition sample_sha1hex (s : jsstring) : jsstring :=
  Server.decimal (Z.of_nat (List.length s)).

Definition sample_toISOString (ms : Z) : jsstring := Server.decimal ms.

Definition sample_error : Server.Error :=
  Server.mkError (str "AbortError") (str "Fetch aborted by timeout").

(** A vehicle whose trip names its headsign, beside the label. *)
Definition sample_vehicle_with_headsign : VehiclePosition.t :=
  VehiclePosition.mk
    (Some (TripDescriptor.mk (Some (str "12")) None None None
             (Some (str " Centrum ")) None None None None
             Absent Absent Absent Absent))
    (Some sample_descriptor) (Some sample_position) None None.

(** The server after one successful refresh at time 1000. *)
Definition sample_state : Server.state :=
  Server.update sample_stringify sample_sha1hex (Server.initial sample_sha1hex)
    (Server.Response true 200 (str "OK") (Server.Decoded [sample_entity])) 1000.


(* ================================================================== *)
(** * Properties *)

(** ** Headsign fallback *)

Section HeadsignFacts.

Lemma ws_not_separator c : is_ws c = true -> is_separator c = false.
Proof.
  unfold is_ws, is_separator; intros H.
  repeat (apply orb_false_intro); apply N.eqb_neq; intros ->;
    vm_compute in H; discriminate.
Qed.

Lemma dot_plus_end_ok r0 rest :
  forallb (fun c => negb (is_line_terminator c)) (r0 :: rest) = true ->
  dot_plus_end (r0 :: rest) = Some (r0 :: rest).
Proof. intros H; unfold dot_plus_end; now rewrite H. Qed.

Lemma ws_star_then_capture_ok ws r0 rest :
  forallb is_ws ws = true ->
  is_ws r0 = false ->
  forallb (fun c => negb (is_line_terminator c)) (r0 :: rest) = true ->
  ws_star_then_capture (ws ++ r0 :: rest) = Some (r0 :: rest).
Proof.
  intros Hws Hr0 Hlt; induction ws as [|w ws IH]; simpl.
  - rewrite Hr0; now apply dot_plus_end_ok.
  - simpl in Hws; apply andb_prop in Hws as [Hw Hws'].
    rewrite Hw, (IH Hws'); reflexivity.
Qed.

Lemma match_here_not_separator c s :
  is_separator c = false -> match_here (c :: s) = None.
Proof. intros H; simpl; now rewrite H. Qed.

Lemma separatorMatch_skip pre s :
  forallb (fun c => negb (is_separator c)) pre = true ->
  separatorMatch (pre ++ s) = separatorMatch s.
Proof.
  induction pre as [|c pre IH]; intros H; [reflexivity|].
  simpl in H; apply andb_prop in H as [Hc Hpre].
  apply negb_true_iff in Hc.
  change ((c :: pre) ++ s) with (c :: (pre ++ s)).
  cbn [separatorMatch]; rewrite (match_here_not_separator c _ Hc).
  now apply IH.
Qed.

Lemma separatorMatch_found s r : match_here s = Some r -> separatorMatch s = Some r.
Proof. intros H; destruct s; cbn [separatorMatch]; now rewrite H. Qed.

(** The text after the leftmost run of one or two separators and the white
    space that follows it is what the pattern captures. *)
Lemma separatorMatch_trailing pre c1 second ws r0 rest :
  forallb (fun c => negb (is_separator c)) pre = true ->
  is_separator c1 = true ->
  match second with
  | Some c2 => is_separator c2 = true
  | None => is_separator (hd r0 ws) = false
  end ->
  forallb is_ws ws = true ->
  is_ws r0 = false ->
  forallb (fun c => negb (is_line_terminator c)) (r0 :: rest) = true ->
  separatorMatch
    (pre ++ c1 :: match second with Some c2 => [c2] | None => [] end
         ++ ws ++ r0 :: rest)
  = Some (r0 :: rest).
Proof.
  intros Hpre Hc1 Hsnd Hws Hr0 Hlt.
  rewrite (separatorMatch_skip pre _ Hpre).
  apply separatorMatch_found.
  pose proof (ws_star_then_capture_ok ws r0 rest Hws Hr0 Hlt) as Hcap.
  destruct second as [c2|]; cbn [match_here app]; rewrite Hc1.
  - rewrite Hsnd, Hcap; reflexivity.
  - destruct ws as [|w ws']; cbn [app hd] in *.
    + rewrite Hsnd; exact Hcap.
    + rewrite Hsnd; exact Hcap.
Qed.

Lemma truthy_Some_cons c (s : jsstring) : truthy (Some (c :: s)) = true.
Proof. reflexivity. Qed.

Lemma deriveHeadsignFromLabel_trailing l pre c1 second ws r0 rest :
  trim l = pre ++ c1 :: match second with Some c2 => [c2] | None => [] end
               ++ ws ++ r0 :: rest ->
  forallb (fun c => negb (is_separator c)) pre = true ->
  is_separator c1 = true ->
  match second with
  | Some c2 => is_separator c2 = true
  | None => is_separator (hd r0 ws) = false
  end ->
  forallb is_ws ws = true ->
  is_ws r0 = false ->
  forallb (fun c => negb (is_line_terminator c)) (r0 :: rest) = true ->
  deriveHeadsignFromLabel (Some l) = Some (trim (r0 :: rest)).
Proof.
  intros Htrim Hpre Hc1 Hsnd Hws Hr0 Hlt.
  assert (Hl : truthy (Some l) = true).
  { destruct l; [|reflexivity]. cbv in Htrim.
    destruct pre; discriminate. }
  unfold deriveHeadsignFromLabel; rewrite Hl; cbn [negb].
  assert (Ht : truthy (Some (trim l)) = true).
  { rewrite Htrim; destruct pre; reflexivity. }
  cbv zeta; rewrite Ht; cbn [negb].
  rewrite Htrim, (separatorMatch_trailing pre c1 second ws r0 rest Hpre Hc1 Hsnd Hws Hr0 Hlt).
  reflexivity.
Qed.

(** The pattern at work: the leftmost separator decides, a second separator
    directly after it belongs to the run, and the en dash is a separator. *)
Example derive_leftmost :
  deriveHeadsignFromLabel (Some (str "7 - Dworzec - Centrum"))
  = Some (str "Dworzec - Centrum").
Proof. reflexivity. Qed.

Example derive_arrow :
  deriveHeadsignFromLabel (Some (str " 7 -> Dworzec ")) = Some (str "Dworzec").
Proof. reflexivity. Qed.

Example derive_en_dash :
  deriveHeadsignFromLabel (Some (str "12" ++ [8211%N] ++ str "Retkinia"))
  = Some (str "Retkinia").
Proof. reflexivity. Qed.

Example derive_two_separators_only :
  deriveHeadsignFromLabel (Some (str "12--")) = Some (str "-").
Proof. reflexivity. Qed.

Example derive_no_separator :
  deriveHeadsignFromLabel (Some (str "1234")) = None.
Proof. reflexivity. Qed.

End HeadsignFacts.

(** ** The records built from a decoded feed *)

Section DecodeFacts.

Import Decode.

Lemma visit_app items e : visit items e = items ++ visit [] e.
Proof.
  unfold visit; destruct (skipped e); [now rewrite List.app_nil_r|].
  destruct (FeedEntity.vehicle e) as [v|]; [|now rewrite List.app_nil_r].
  destruct (VehiclePosition.position v); [reflexivity | now rewrite List.app_nil_r].
Qed.

Lemma fold_visit es : forall items,
  fold_left visit es items = items ++ flat_map (visit []) es.
Proof.
  induction es as [|e es IH]; intros items; simpl.
  - now rewrite List.app_nil_r.
  - rewrite IH, (visit_app items e), <- List.app_assoc; reflexivity.
Qed.

(** The loop is a filter-and-map over the entities, in their order. *)
Lemma collect_flat_map es : collect es = flat_map (visit []) es.
Proof. unfold collect; now rewrite fold_visit. Qed.

Lemma visit_skipped e : skipped e = true -> visit [] e = [].
Proof. intros H; unfold visit; now rewrite H. Qed.

Lemma visit_length e : (List.length (visit [] e) <= 1)%nat.
Proof.
  unfold visit; destruct (skipped e); simpl; [lia|].
  destruct (FeedEntity.vehicle e) as [v|]; simpl; [|lia].
  destruct (VehiclePosition.position v); simpl; lia.
Qed.

Lemma visit_has_coordinates e r :
  In r (visit [] e) -> Item.lat r <> None /\ Item.lon r <> None.
Proof.
  unfold visit, skipped.
  destruct (FeedEntity.vehicle e) as [v|]; [|intros []].
  destruct (VehiclePosition.position v) as [p|]; [|intros []].
  destruct (Position.latitude p) as [la|] eqn:Hla; [|intros []].
  destruct (Position.longitude p) as [lo|] eqn:Hlo; [|intros []].
  intros [<-|[]]; cbn [build Item.lat Item.lon].
  rewrite Hla, Hlo; split; discriminate.
Qed.

Lemma collect_length es : (List.length (collect es) <= List.length es)%nat.
Proof.
  rewrite collect_flat_map; induction es as [|e es IH]; simpl; [lia|].
  rewrite List.length_app; pose proof (visit_length e); lia.
Qed.

Lemma collect_has_coordinates es r :
  In r (collect es) -> Item.lat r <> None /\ Item.lon r <> None.
Proof.
  rewrite collect_flat_map, in_flat_map; intros [e [_ Hr]].
  now apply (visit_has_coordinates e).
Qed.

Lemma lacks_coordinates_skipped e : lacks_coordinates e -> skipped e = true.
Proof.
  unfold skipped; intros [H|[v [Hv [H|[p [Hp H]]]]]].
  - now rewrite H.
  - now rewrite Hv, H.
  - rewrite Hv, Hp; destruct H as [H|H]; rewrite H; [reflexivity|].
    now destruct (Position.latitude p).
Qed.

End DecodeFacts.

Section RecordFields.

Import Decode.

Lemma first_truthy_none fields :
  forallb (fun f => negb (truthy f)) fields = true ->
  truthy (fold_right or_else None fields) = false.
Proof.
  induction fields as [|f fields IH]; [reflexivity|]; cbn [forallb fold_right].
  intros H; apply andb_prop in H as [Hf Hfs]; apply negb_true_iff in Hf.
  unfold or_else at 1; rewrite Hf; now apply IH.
Qed.

Lemma first_truthy_found before h after :
  forallb (fun f => negb (truthy f)) before = true ->
  h <> [] ->
  fold_right or_else None (before ++ Some h :: after) = Some h.
Proof.
  intros Hb Hh; induction before as [|f before IH]; cbn [app fold_right].
  - unfold or_else at 1; destruct h; [now elim Hh | reflexivity].
  - cbn in Hb; apply andb_prop in Hb as [Hf Hb]; apply negb_true_iff in Hf.
    unfold or_else at 1; rewrite Hf; now apply IH.
Qed.

(** The chain of [||] of the source picks the first of the six fields that
    holds a non-empty string. *)
Lemma explicit_headsign_fields vehicle :
  explicit_headsign vehicle (trip_of vehicle)
  = fold_right or_else None (headsign_fields vehicle).
Proof. reflexivity. Qed.

(** C9. With none of the six headsign fields of the feed holding a value and
    the label "12-Lagiewnicka" the record's headsign is "Lagiewnicka".  In
    general the fallback returns the text that follows the leftmost run of
    one or two separators (-, en dash, >) and the white space after it.  The
    record takes its headsign from the fallback, applied to the trimmed label
    (the descriptor's label, else its id), exactly when none of the six
    fields holds a value; when one does, the first of them in the order of
    the source is the headsign, trimmed, whatever the label. *)
Theorem headsign_fallback_from_label :
  (forall entity vehicle position vd,
      VehiclePosition.vehicle vehicle = Some vd ->
      VehicleDescriptor.label vd = Some (str "12-Lagiewnicka") ->
      forallb (fun f => negb (truthy f)) (headsign_fields vehicle) = true ->
      Item.headsign (build entity vehicle position) = Some (str "Lagiewnicka"))
  /\ (forall l pre c1 second ws r0 rest,
      trim l = pre ++ c1 :: match second with Some c2 => [c2] | None => [] end
                   ++ ws ++ r0 :: rest ->
      forallb (fun c => negb (is_separator c)) pre = true ->
      is_separator c1 = true ->
      match second with
      | Some c2 => is_separator c2 = true
      | None => is_separator (hd r0 ws) = false
      end ->
      forallb is_ws ws = true ->
      is_ws r0 = false ->
      forallb (fun c => negb (is_line_terminator c)) (r0 :: rest) = true ->
      deriveHeadsignFromLabel (Some l) = Some (trim (r0 :: rest)))
  /\ (forall entity vehicle position,
      forallb (fun f => negb (truthy f)) (headsign_fields vehicle) = true ->
      Item.headsign (build entity vehicle position)
      = let raw := or_else (VehicleDescriptor.label (descriptor_of vehicle))
                           (VehicleDescriptor.id (descriptor_of vehicle)) in
        let derived :=
          deriveHeadsignFromLabel
            (if truthy raw then option_map trim raw else None) in
        if truthy derived then option_map trim derived else None)
  /\ (forall entity vehicle position before h after,
      headsign_fields vehicle = before ++ Some h :: after ->
      forallb (fun f => negb (truthy f)) before = true ->
      h <> [] ->
      Item.headsign (build entity vehicle position) = Some (trim h)).
Proof.
  split; [|split; [|split]].
  - intros entity vehicle position vd Hvd Hlabel Hnone.
    pose proof (first_truthy_none _ Hnone) as Hexp.
    rewrite <- explicit_headsign_fields in Hexp.
    unfold build; cbn [Item.headsign]; cbv zeta.
    unfold descriptor_of; rewrite Hvd, Hlabel, Hexp.
    reflexivity.
  - exact deriveHeadsignFromLabel_trailing.
  - intros entity vehicle position Hnone.
    pose proof (first_truthy_none _ Hnone) as Hexp.
    rewrite <- explicit_headsign_fields in Hexp.
    unfold build; cbn [Item.headsign]; cbv zeta.
    rewrite Hexp; cbn [negb].
    destruct (truthy (or_else _ _)) eqn:Hraw.
    + destruct (or_else _ _) as [raw|]; [|discriminate Hraw]; cbn [option_map].
      destruct (deriveHeadsignFromLabel _) as [d|]; reflexivity.
    + destruct (deriveHeadsignFromLabel _) as [d|]; reflexivity.
  - intros entity vehicle position before h after Hfields Hbefore Hh.
    assert (Hexp : explicit_headsign vehicle (trip_of vehicle) = Some h).
    { rewrite explicit_headsign_fields, Hfields.
      now apply first_truthy_found. }
    assert (Ht : truthy (Some h) = true) by (destruct h; [now elim Hh | reflexivity]).
    unfold build; cbn [Item.headsign]; cbv zeta.
    rewrite Hexp, Ht; cbn [negb]; rewrite Ht; reflexivity.
Qed.

Lemma headsign_fallback_from_label_witness :
  Item.headsign (build sample_entity sample_vehicle sample_position)
  = Some (str "Lagiewnicka")
  /\ Item.headsign
       (build sample_entity sample_vehicle_with_headsign sample_position)
     = Some (str "Centrum").
Proof.
  split.
  - apply (proj1 headsign_fallback_from_label sample_entity sample_vehicle
             sample_position sample_descriptor); reflexivity.
  - apply (proj2 (proj2 (proj2 headsign_fallback_from_label))
             sample_entity sample_vehicle_with_headsign sample_position
             [None] (str " Centrum ") [None; None; None; None]);
      [reflexivity | reflexivity | discriminate].
Defined.

(** C10, as the code has it.  A bearing or a speed that is 0 upstream becomes
    null in the record, and so does a timestamp that reaches the loop as the
    number 0; but the decoder hands the timestamp over as a [Long] object,
    which is truthy whatever it holds, so a timestamp of 0 (or one absent
    from the wire) is emitted as 0, not as null.  A direction id that the
    feed provides is kept as it is, 0 included; one that the feed does not
    provide is null. *)
Theorem zero_fields_of_a_record :
  forall entity vehicle position,
    (forall b, Position.bearing position = Some b ->
               PrimFloat.eqb b 0%float = true ->
               Item.bearing (build entity vehicle position) = None)
    /\ (forall s, Position.speed position = Some s ->
                  PrimFloat.eqb s 0%float = true ->
                  Item.speed (build entity vehicle position) = None)
    /\ (forall x, VehiclePosition.timestamp vehicle = Some (Seconds x) ->
                  PrimFloat.eqb x 0%float = true ->
                  Item.timestamp (build entity vehicle position) = None)
    /\ (VehiclePosition.timestamp vehicle = Some (Long 0) ->
        Item.timestamp (build entity vehicle position) = Some 0%float)
    /\ (forall v, VehiclePosition.timestamp vehicle = Some (Long v) ->
                  Item.timestamp (build entity vehicle position)
                  = Some (PrimFloat.mul (Number_of_integer v) 1000))
    /\ (forall t d, VehiclePosition.trip vehicle = Some t ->
                    TripDescriptor.directionId t = Own (Some d) ->
                    Item.directionId (build entity vehicle position) = Some d)
    /\ (forall t d, VehiclePosition.trip vehicle = Some t ->
                    get (TripDescriptor.directionId t) = None ->
                    TripDescriptor.direction_id t = Own (Some d) ->
                    Item.directionId (build entity vehicle position) = Some d)
    /\ (forall t, VehiclePosition.trip vehicle = Some t ->
                  TripDescriptor.directionId t = Absent ->
                  TripDescriptor.direction_id t = Absent ->
                  Item.directionId (build entity vehicle position) = None).
Proof.
  intros entity vehicle position.
  split; [|split; [|split; [|split; [|split; [|split; [|split]]]]]].
  - intros b Hb H0; unfold build; cbn [Item.bearing]; rewrite Hb.
    unfold num_or_null, num_truthy; now rewrite H0.
  - intros s Hs H0; unfold build; cbn [Item.speed]; rewrite Hs.
    unfold num_or_null, num_truthy; now rewrite H0.
  - intros x Ht H0; unfold build; cbn [Item.timestamp]; rewrite Ht.
    unfold timestamp_truthy, num_truthy; now rewrite H0.
  - intros Ht; unfold build; cbn [Item.timestamp]; now rewrite Ht.
  - intros v Ht; unfold build; cbn [Item.timestamp]; now rewrite Ht.
  - intros t d Ht Hd; unfold build; cbn [Item.directionId]; cbv zeta.
    unfold trip_of; rewrite Ht, Hd; reflexivity.
  - intros t d Ht Hn Hd; unfold build; cbn [Item.directionId]; cbv zeta.
    unfold trip_of; rewrite Ht, Hn, Hd; cbn.
    now rewrite orb_true_r.
  - intros t Ht Hd Hd'; unfold build; cbn [Item.directionId]; cbv zeta.
    unfold trip_of; rewrite Ht, Hd, Hd'; reflexivity.
Qed.

Lemma zero_fields_of_a_record_witness :
  Item.bearing (build sample_entity sample_vehicle sample_position) = None
  /\ Item.speed (build sample_entity sample_vehicle sample_position) = None
  /\ Item.timestamp (build sample_entity sample_vehicle sample_position)
     = Some 0%float
  /\ Item.directionId (build sample_entity sample_vehicle sample_position)
     = Some 0%Z.
Proof.
  pose proof (zero_fields_of_a_record sample_entity sample_vehicle
                sample_position) as (Hb & Hs & _ & Ht & _ & Hd & _).
  split; [|split; [|split]].
  - apply (Hb 0%float); reflexivity.
  - apply (Hs 0%float); reflexivity.
  - apply Ht; reflexivity.
  - apply (Hd sample_trip 0%Z); reflexivity.
Defined.

End RecordFields.

(** ** The snapshot cache and the handlers *)

Section ServerFacts.

Import Config Server.

Variable stringify : list Item.t -> jsstring.
Variable sha1hex : jsstring -> jsstring.
Variable toISOString : Z -> jsstring.

Local Abbreviation computeEtag := (Server.computeEtag sha1hex).
Local Abbreviation initial := (Server.initial sha1hex).
Local Abbreviation commit := (Server.commit stringify sha1hex).
Local Abbreviation update := (Server.update stringify sha1hex).
Local Abbreviation refresh := (Server.refresh stringify sha1hex).
Local Abbreviation replay := (Server.replay stringify sha1hex).
Local Abbreviation ensureLatest := (Server.ensureLatest stringify sha1hex).
Local Abbreviation currentEtag := (Server.currentEtag sha1hex).
Local Abbreviation positions := (Server.positions sha1hex toISOString).
Local Abbreviation GET_positions := (Server.GET_positions stringify sha1hex toISOString).
Local Abbreviation step := (Server.step stringify sha1hex).
Local Abbreviation run := (Server.run stringify sha1hex).

(** The four ways for a refresh to fail. *)
Lemma attempt_failures :
  (forall err, attempt (Rejected err) = inl err)
  /\ (forall status statusText body,
        attempt (Response false status statusText body)
        = inl (mkError (str "Error")
                 (str "HTTP " ++ decimal status ++ str " " ++ statusText)))
  /\ (forall status statusText err,
        attempt (Response true status statusText (Unreadable err)) = inl err)
  /\ (forall status statusText err,
        attempt (Response true status statusText (Undecodable err)) = inl err).
Proof. repeat split. Qed.

Lemma attempt_success up items :
  attempt up = inr items ->
  exists status statusText entities,
    up = Response true status statusText (Decoded entities)
    /\ items = Decode.collect entities.
Proof.
  destruct up as [err|ok status statusText body]; [discriminate|].
  destruct ok; [|discriminate].
  destruct body as [err|err|entities]; try discriminate.
  intros [= <-]; now exists status, statusText, entities.
Qed.

Lemma update_failure st up now err :
  attempt up = inl err -> update st up now = recordFailure st err.
Proof. intros H; unfold Server.update; now rewrite H. Qed.

Lemma update_success st status statusText entities now :
  update st (Response true status statusText (Decoded entities)) now
  = commit st (Decode.collect entities) now.
Proof. reflexivity. Qed.

(** C6. A successful refresh replaces the snapshot wholesale: the records are
    the ones just decoded, the serialized form and the ETag are recomputed
    from them, updatedAt is the current time, lastError is null and
    consecutiveFailures is 0; nothing of the previous state remains. *)
Theorem commit_replaces_snapshot :
  forall st status statusText entities now,
    vehicles (update st (Response true status statusText (Decoded entities)) now)
    = Decode.collect entities
    /\ vehiclesJson (update st (Response true status statusText (Decoded entities)) now)
       = stringify (Decode.collect entities)
    /\ vehiclesEtag (update st (Response true status statusText (Decoded entities)) now)
       = computeEtag now (stringify (Decode.collect entities))
    /\ lastUpdatedAtMs (update st (Response true status statusText (Decoded entities)) now)
       = now
    /\ lastUpdateError (update st (Response true status statusText (Decoded entities)) now)
       = None
    /\ consecutiveFailures (update st (Response true status statusText (Decoded entities)) now)
       = 0%Z
    /\ (forall st0,
          update st0 (Response true status statusText (Decoded entities)) now
          = update st (Response true status statusText (Decoded entities)) now).
Proof. intros; repeat split. Qed.

(** The body the handler sends when it sends one. *)
Lemma positions_body cfg st now inm :
  body (positions cfg st now inm) = None
  \/ body (positions cfg st now inm) = Some (vehiclesJson st).
Proof.
  unfold Server.positions; cbv zeta.
  destruct (negb _ && _); [left|right]; reflexivity.
Qed.

Lemma positions_unconditional_body cfg st now :
  body (positions cfg st now None) = Some (vehiclesJson st).
Proof.
  unfold Server.positions; cbv zeta; now rewrite andb_false_r.
Qed.

(** C5. A refresh that fails, whichever way (the fetch rejects or is aborted
    by the timeout, the upstream answers with a non-success status, the body
    cannot be read or decoded), stores the error as lastError and adds one to
    consecutiveFailures; the records, their serialized form, the ETag and
    updatedAt stay as they were, and the body served is still the cached
    one. *)
Theorem failure_keeps_snapshot :
  forall cfg st up now err,
    attempt up = inl err ->
    lastUpdateError (update st up now) = Some err
    /\ consecutiveFailures (update st up now) = (consecutiveFailures st + 1)%Z
    /\ vehicles (update st up now) = vehicles st
    /\ vehiclesJson (update st up now) = vehiclesJson st
    /\ vehiclesEtag (update st up now) = vehiclesEtag st
    /\ lastUpdatedAtMs (update st up now) = lastUpdatedAtMs st
    /\ snd (refresh st up now) = vehicles st
    /\ (forall later, body (positions cfg (update st up now) later None)
                      = Some (vehiclesJson st)).
Proof.
  intros cfg st up now err H.
  unfold Server.refresh; cbn [snd].
  rewrite (update_failure st up now err H); repeat split.
  intros later; now rewrite positions_unconditional_body.
Qed.

(** Failures in a row are counted. *)
Lemma replay_failures history : forall st,
  Forall (fun h => exists err, attempt (fst h) = inl err) history ->
  consecutiveFailures (replay st history)
  = (consecutiveFailures st + Z.of_nat (List.length history))%Z.
Proof.
  induction history as [|[up now] history IH]; intros st H.
  - cbn; lia.
  - inversion H as [|h hs [err Herr] Hrest]; subst.
    cbn [Server.replay fold_left fst snd List.length].
    change (fold_left _ history ?s) with (replay s history).
    rewrite (IH _ Hrest), (update_failure st up now err Herr).
    cbn [recordFailure consecutiveFailures]; lia.
Qed.

(** *** ETags *)






Lemma computeEtag_not_empty ts json : computeEtag ts json <> [].
Proof. unfold Server.computeEtag; destruct (ts =? 0)%Z; discriminate. Qed.


Lemma currentEtag_consistent st :
  vehiclesEtag st = computeEtag (lastUpdatedAtMs st) (vehiclesJson st) ->
  currentEtag st = computeEtag (lastUpdatedAtMs st) (vehiclesJson st).
Proof.
  intros H; unfold Server.currentEtag; rewrite H.
  destruct (computeEtag _ _); reflexivity.
Qed.

(** Every state the server goes through has the ETag of its snapshot. *)
Lemma replay_etag history : forall st,
  vehiclesEtag st = computeEtag (lastUpdatedAtMs st) (vehiclesJson st) ->
  vehiclesEtag (replay st history)
  = computeEtag (lastUpdatedAtMs (replay st history)) (vehiclesJson (replay st history)).
Proof.
  induction history as [|[up now] history IH]; intros st H; [exact H|].
  cbn [Server.replay fold_left fst snd]; apply IH.
  unfold Server.update; destruct (attempt up); [exact H | reflexivity].
Qed.

(** *** Snapshots never hold a record without coordinates *)

Lemma replay_has_coordinates history : forall st,
  (forall r, In r (vehicles st) -> Item.lat r <> None /\ Item.lon r <> None) ->
  forall r, In r (vehicles (replay st history)) ->
            Item.lat r <> None /\ Item.lon r <> None.
Proof.
  induction history as [|[up now] history IH]; intros st H; [exact H|].
  cbn [Server.replay fold_left fst snd]; apply IH.
  unfold Server.update; destruct (attempt up) as [err|items] eqn:Hup; [exact H|].
  destruct (attempt_success up items Hup) as (status & text & entities & _ & ->).
  cbn [Server.commit vehicles]; apply collect_has_coordinates.
Qed.

(** C8. An entity with no vehicle, no position, or a position without
    latitude or longitude contributes nothing to the records; the records are
    at most as many as the entities; and no record, in the result of a decode
    or in any snapshot the server ever holds, lacks a coordinate. *)
Theorem decode_filtering :
  forall before e after,
    Decode.lacks_coordinates e ->
    Decode.collect (before ++ e :: after) = Decode.collect (before ++ after)
    /\ (forall es, (List.length (Decode.collect es) <= List.length es)%nat)
    /\ (forall es r, In r (Decode.collect es) ->
                     Item.lat r <> None /\ Item.lon r <> None)
    /\ (forall history r, In r (vehicles (replay initial history)) ->
                          Item.lat r <> None /\ Item.lon r <> None).
Proof.
  intros before e after He; repeat split.
  - rewrite !collect_flat_map, !flat_map_app; cbn [flat_map].
    now rewrite (visit_skipped e (lacks_coordinates_skipped e He)).
  - apply collect_length.
  - now apply (collect_has_coordinates es).
  - now apply (collect_has_coordinates es).
  - revert H; apply replay_has_coordinates; intros r0 [].
  - revert H; apply replay_has_coordinates; intros r0 [].
Qed.

(** *** GET /positions *)

Lemma header_app_found k v b : forall a,
  header k b = Some v -> header k (a ++ b) = Some v.
Proof.
  induction a as [|[k0 v0] a IH]; intros H; [exact H|].
  cbn [app header]; now rewrite (IH H).
Qed.

Lemma positions_status cfg st now inm :
  status (positions cfg st now inm) = 304%Z
  \/ status (positions cfg st now inm)
     = (if isStale cfg st now then 503 else 200)%Z.
Proof.
  unfold Server.positions; cbv zeta.
  destruct (negb _ && _); [left|right]; reflexivity.
Qed.

(** Past the threshold: 503, X-Feed-Stale, and the cached body all the same. *)
Lemma positions_stale cfg st now inm :
  isStale cfg st now = true ->
  status (positions cfg st now inm) = 503%Z
  /\ header "X-Feed-Stale" (headers (positions cfg st now inm)) = Some (str "true")
  /\ body (positions cfg st now inm) = Some (vehiclesJson st).
Proof.
  intros H; unfold Server.positions; cbv zeta; rewrite H; cbn [negb andb].
  cbn [status headers body]; repeat split.
  now apply header_app_found.
Qed.





(** C1, as the code has it.  Before any refresh has succeeded the handler does
    not consider the data stale: with the upstream failing, the first request
    is answered 200 with the body "[]" and no X-Feed-Stale header, while
    [getState()] reports the same state as stale. *)
Theorem positions_before_first_success :
  forall cfg err tnow now,
    lastUpdatedAtMs (fst (GET_positions cfg initial (Rejected err) tnow now None)) = 0%Z
    /\ status (snd (GET_positions cfg initial (Rejected err) tnow now None)) = 200%Z
    /\ header "X-Feed-Stale"
         (headers (snd (GET_positions cfg initial (Rejected err) tnow now None))) = None
    /\ body (snd (GET_positions cfg initial (Rejected err) tnow now None))
       = Some (str "[]")
    /\ getState_isStale cfg
         (fst (GET_positions cfg initial (Rejected err) tnow now None)) now = true.
Proof. intros; repeat split. Qed.

(** *** Overlapping calls of refresh() *)

Lemma run_cons sys ev evs : run sys (ev :: evs) = run (step sys ev) evs.
Proof. reflexivity. Qed.

Lemma step_call_in_flight sys waiters c :
  inFlightUpdate sys = Some waiters ->
  step sys (CallRefresh c)
  = mkSystem (cache sys) (Some (waiters ++ [(c, Returned)]))
      (fetchCalls sys) (resolved sys).
Proof. intros H; cbn [Server.step]; now rewrite H. Qed.

(** While an operation is in flight a call only attaches its caller to it. *)
Lemma run_calls_in_flight callers : forall sys waiters,
  inFlightUpdate sys = Some waiters ->
  run sys (map CallRefresh callers)
  = mkSystem (cache sys)
      (Some (waiters ++ map (fun c => (c, Returned)) callers))
      (fetchCalls sys) (resolved sys).
Proof.
  induction callers as [|c callers IH]; intros sys waiters H.
  - cbn; rewrite List.app_nil_r, <- H; now destruct sys.
  - cbn [map]; rewrite run_cons, (step_call_in_flight sys waiters c H).
    rewrite (IH _ (waiters ++ [(c, Returned)])) by reflexivity.
    cbn [cache fetchCalls resolved map]; now rewrite <- List.app_assoc.
Qed.

Lemma calls_in_flight_issue_no_fetch callers sys waiters :
  inFlightUpdate sys = Some waiters ->
  fetchCalls (run sys (map CallRefresh callers)) = fetchCalls sys.
Proof. intros H; now rewrite (run_calls_in_flight callers sys waiters H). Qed.

Lemma run_app sys evs evs' : run sys (evs ++ evs') = run (run sys evs) evs'.
Proof. apply fold_left_app. Qed.

(** X31.  From an idle server, a call of refresh() followed
    by any number of further calls before the operation settles issues one
    upstream fetch; the further callers are attached to the promise of the
    first; when the operation settles, successfully or not, the state is
    updated once, the in-flight marker is released and every caller
    resumes, the first with the vehicle list of the updated state. *)
Theorem single_flight :
  forall st n first others up now,
    fetchCalls (run (idle st n) (CallRefresh first :: map CallRefresh others)) = S n
    /\ inFlightUpdate (run (idle st n) (CallRefresh first :: map CallRefresh others))
       = Some ((first, Awaits) :: map (fun c => (c, Returned)) others)
    /\ cache (run (idle st n) (CallRefresh first :: map CallRefresh others)) = st
    /\ fetchCalls (run (idle st n)
                     (CallRefresh first :: map CallRefresh others ++ [Settle up now]))
       = S n
    /\ cache (run (idle st n)
                (CallRefresh first :: map CallRefresh others ++ [Settle up now]))
       = update st up now
    /\ inFlightUpdate (run (idle st n)
                         (CallRefresh first :: map CallRefresh others ++ [Settle up now]))
       = None
    /\ map fst (resolved (run (idle st n)
                  (CallRefresh first :: map CallRefresh others ++ [Settle up now])))
       = first :: others
    /\ hd_error (resolved (run (idle st n)
                  (CallRefresh first :: map CallRefresh others ++ [Settle up now])))
       = Some (first, Vehicles (vehicles (update st up now))).
Proof.
  intros st n first others up now.
  assert (H : run (idle st n) (CallRefresh first :: map CallRefresh others)
              = mkSystem st (Some ((first, Awaits) :: map (fun c => (c, Returned)) others))
                  (S n) []).
  { rewrite run_cons; cbn [Server.step idle inFlightUpdate cache fetchCalls resolved].
    now rewrite (run_calls_in_flight others _ [(first, Awaits)]) by reflexivity. }
  rewrite app_comm_cons, run_app, H.
  cbn [Server.run fold_left Server.step inFlightUpdate cache fetchCalls resolved app].
  repeat split.
  cbn [map resume fst snd]; f_equal.
  rewrite !map_map; cbn; apply map_id.
Qed.

End ServerFacts.

(** C3, as the code has it.  Two calls of refresh() that overlap do not
    resolve alike: the promise of the call that started the fetch is
    fulfilled with the vehicle list ([return vehicles]), the promise of the
    call attached to it with [undefined] ([return inFlightUpdate], an
    operation that returns nothing). *)
Lemma attached_caller_resolves_undefined :
  exists r0 r1,
    In (0%nat, r0)
      (Server.resolved
         (Server.run sample_stringify sample_sha1hex
            (Server.idle (Server.initial sample_sha1hex) 0)
            [Server.CallRefresh 0; Server.CallRefresh 1;
             Server.Settle
               (Server.Response true 200 (str "OK") (Server.Decoded [sample_entity]))
               1000]))
    /\ In (1%nat, r1)
      (Server.resolved
         (Server.run sample_stringify sample_sha1hex
            (Server.idle (Server.initial sample_sha1hex) 0)
            [Server.CallRefresh 0; Server.CallRefresh 1;
             Server.Settle
               (Server.Response true 200 (str "OK") (Server.Decoded [sample_entity]))
               1000]))
    /\ r0 <> r1.
Proof.
  exists (Server.Vehicles (Decode.collect [sample_entity])), Server.Undefined.
  split; [left; reflexivity|].
  split; [right; left; reflexivity|].
  discriminate.
Qed.

(** ** Configuration and the retry schedule *)

Section ConfigFacts.

Import Config.

Local Open Scope Z_scope.

Lemma validate_refreshIntervalMs_min o :
  MIN_REFRESH_INTERVAL_MS <= validate_refreshIntervalMs o.
Proof.
  unfold validate_refreshIntervalMs; cbv zeta.
  destruct (Z.ltb_spec (reject_unless_above (or_default o 30000) 0 30000)
              MIN_REFRESH_INTERVAL_MS); lia.
Qed.

Lemma reject_unless_above_gt x bound fallback :
  bound < fallback -> bound < reject_unless_above x bound fallback.
Proof.
  intros H; unfold reject_unless_above; destruct x as [| |z]; try exact H.
  destruct (Z.leb_spec z bound); lia.
Qed.

(** A value that is not finite, or not above the interval, is replaced by
    the fallback of [createServer]: four times the interval, at least five
    minutes. *)
Lemma validate_maxBackoffMs_rejected r x :
  (x = NotFinite \/ exists z, x = Finite z /\ z <= r) ->
  validate_maxBackoffMs r x = Z.max (r * 4) 300000.
Proof.
  unfold validate_maxBackoffMs; intros [->|[z [-> Hz]]]; cbn.
  - reflexivity.
  - destruct (Z.leb_spec z r); [reflexivity | lia].
Qed.

Lemma validate_maxBackoffMs_above r o :
  0 < r -> r < validate_maxBackoffMs r o.
Proof.
  intros Hr; unfold validate_maxBackoffMs; cbv zeta.
  apply reject_unless_above_gt; lia.
Qed.

Lemma createServer_valid o cfg :
  createServer o = Some cfg ->
  MIN_REFRESH_INTERVAL_MS <= refreshIntervalMs cfg
  /\ refreshIntervalMs cfg < maxBackoffMs cfg
  /\ refreshIntervalMs cfg * 2 <= staleAfterMs cfg.
Proof.
  unfold createServer; cbv zeta.
  destruct (truthy (feedUrl o)); [|discriminate].
  destruct (feedUrl o) as [u|]; [|discriminate].
  intros [= <-]; cbn [refreshIntervalMs maxBackoffMs staleAfterMs].
  pose proof (validate_refreshIntervalMs_min (opt_refreshIntervalMs o)) as Hr.
  unfold MIN_REFRESH_INTERVAL_MS in *.
  split; [exact Hr|split].
  - apply validate_maxBackoffMs_above; lia.
  - unfold validate_staleAfterMs; cbv zeta.
    match goal with |- context [if ?b then _ else _] => destruct b eqn:Hb end;
      [lia | apply Z.ltb_ge in Hb; exact Hb].
Qed.

Lemma backoffMultiplier_mono n m :
  n <= m -> Server.backoffMultiplier n <= Server.backoffMultiplier m.
Proof.
  intros H; unfold Server.backoffMultiplier.
  apply Z.min_le_compat_r, Z.pow_le_mono_r; lia.
Qed.

Lemma backoffMultiplier_zero : Server.backoffMultiplier 0 = 1.
Proof. reflexivity. Qed.

(** C2. On a server that [createServer] has configured, after N >= 1
    consecutive failures the delay of the next refresh is
    min(refreshIntervalMs * min(2^(N-1), 16), maxBackoffMs); the delay does not
    decrease when N grows, never exceeds maxBackoffMs, and with no failure
    it is refreshIntervalMs. *)
Theorem backoff_delay :
  forall o cfg n m,
    createServer o = Some cfg ->
    (1 <= n ->
     Server.delay cfg n
     = Z.min (refreshIntervalMs cfg * Z.min (2 ^ (n - 1)) 16) (maxBackoffMs cfg))
    /\ (n <= m -> Server.delay cfg n <= Server.delay cfg m)
    /\ Server.delay cfg n <= maxBackoffMs cfg
    /\ Server.delay cfg 0 = refreshIntervalMs cfg.
Proof.
  intros o cfg n m Ho.
  destruct (createServer_valid o cfg Ho) as (Hr & Hm & _).
  unfold MIN_REFRESH_INTERVAL_MS in Hr.
  repeat split.
  - intros Hn; unfold Server.delay, Server.backoffMultiplier, MAX_BACKOFF_MULTIPLIER.
    now rewrite Z.max_r by lia.
  - intros Hnm; unfold Server.delay.
    apply Z.min_le_compat_r, Z.mul_le_mono_nonneg_l; [lia|].
    now apply backoffMultiplier_mono.
  - unfold Server.delay; apply Z.le_min_r.
  - unfold Server.delay; rewrite backoffMultiplier_zero; lia.
Qed.

Lemma backoff_delay_witness :
  Server.delay sample_config 3 = 40000
  /\ Server.delay sample_config 3 <= Server.delay sample_config 9
  /\ Server.delay sample_config 9 <= 300000.
Proof.
  destruct (backoff_delay sample_options sample_config 3 9 eq_refl)
    as (H3 & Hmono & _ & _).
  destruct (backoff_delay sample_options sample_config 9 9 eq_refl)
    as (_ & _ & Hcap & _).
  split; [rewrite H3 by lia; reflexivity|].
  split; [apply Hmono; lia | exact Hcap].
Defined.

(** C4, as the code has it.  With an interval of 100000 ms, [createServer]
    replaces the rejected ceiling 50000 by max(4 * 100000, 300000) = 400000,
    and an omitted ceiling by 300000; the documented default,
    max(8 * 100000, 300000) = 800000, is what [main.js] passes when
    MAX_BACKOFF_MS is not set. *)
Theorem maxBackoffMs_fallback :
  option_map maxBackoffMs
    (createServer (mkOptions (Some (str "test://feed")) (Finite 100000)
                     Omitted Omitted (Finite 50000)))
  = Some 400000
  /\ option_map maxBackoffMs
       (createServer (mkOptions (Some (str "test://feed")) (Finite 100000)
                        Omitted Omitted Omitted))
     = Some 300000
  /\ Z.max (8 * 100000) (5 * 60 * 1000) = 800000
  /\ MAX_BACKOFF_MS (mkEnv (Some 100000) None None None) = 800000.
Proof. repeat split. Qed.

End ConfigFacts.

(** ** Instances on the sample feed *)

Lemma failure_keeps_snapshot_witness :
  Server.consecutiveFailures
    (Server.update sample_stringify sample_sha1hex sample_state
       (Server.Rejected sample_error) 2000) = 1%Z
  /\ Server.vehicles
       (Server.update sample_stringify sample_sha1hex sample_state
          (Server.Rejected sample_error) 2000)
     = Decode.collect [sample_entity]
  /\ Server.lastUpdatedAtMs
       (Server.update sample_stringify sample_sha1hex sample_state
          (Server.Rejected sample_error) 2000) = 1000%Z.
Proof.
  destruct (failure_keeps_snapshot sample_stringify sample_sha1hex
              sample_toISOString sample_config sample_state
              (Server.Rejected sample_error) 2000 sample_error eq_refl)
    as (_ & Hn & Hv & _ & _ & Ht & _).
  split; [rewrite Hn; reflexivity|].
  split; [rewrite Hv; reflexivity | rewrite Ht; reflexivity].
Defined.



Lemma decode_filtering_witness :
  Decode.collect ([sample_entity] ++ sample_entity_without_position :: [])
  = Decode.collect ([sample_entity] ++ []).
Proof.
  refine (proj1 (decode_filtering sample_stringify sample_sha1hex
                   [sample_entity] sample_entity_without_position [] _)).
  right; eexists; split; [reflexivity | left; reflexivity].
Defined.

(* ================================================================== *)
(** * Further properties of the code *)

(** ** Trimming and the derived headsign *)

Section TrimFacts.

Lemma trimStart_split s :
  exists ws, s = ws ++ trimStart s /\ forallb is_ws ws = true.
Proof.
  induction s as [|c s [ws [Hs Hws]]]; [now exists []|].
  cbn [trimStart]; destruct (is_ws c) eqn:Hc.
  - exists (c :: ws); cbn; rewrite Hc, Hws; split; [now rewrite <- Hs | reflexivity].
  - now exists [].
Qed.

Lemma trimStart_head s c t : trimStart s = c :: t -> is_ws c = false.
Proof.
  induction s as [|x s IH]; cbn [trimStart]; [discriminate|].
  destruct (is_ws x) eqn:Hx; [exact IH|].
  now intros [= <- _].
Qed.

Lemma trimStart_snoc t c :
  is_ws c = false -> trimStart (t ++ [c]) = trimStart t ++ [c].
Proof.
  intros Hc; induction t as [|x t IH]; cbn [app trimStart]; [now rewrite Hc|].
  destruct (is_ws x); [exact IH | reflexivity].
Qed.

Lemma trimEnd_split s :
  exists ws, s = trimEnd s ++ ws /\ forallb is_ws ws = true.
Proof.
  unfold trimEnd; destruct (trimStart_split (rev s)) as [ws [Hs Hws]].
  exists (rev ws); split.
  - rewrite <- rev_app_distr, <- Hs; now rewrite rev_involutive.
  - apply forallb_forall; intros x Hx; apply in_rev in Hx.
    exact (proj1 (forallb_forall is_ws ws) Hws x Hx).
Qed.

Lemma trimEnd_last s t c : trimEnd s = t ++ [c] -> is_ws c = false.
Proof.
  unfold trimEnd; intros H.
  apply (f_equal (@rev N)) in H; rewrite rev_involutive, rev_app_distr in H.
  exact (trimStart_head (rev s) c (rev t) H).
Qed.

Lemma trimEnd_snoc u c : is_ws c = false -> trimEnd (u ++ [c]) = u ++ [c].
Proof.
  intros Hc; unfold trimEnd; rewrite rev_app_distr; cbn [rev app trimStart].
  rewrite Hc; cbn [rev]; now rewrite rev_involutive.
Qed.

(** What [trim] returns has no white space at either end, and differs from
    its argument by white space only. *)
Lemma trim_no_outer_ws s : no_outer_ws (trim s).
Proof.
  unfold trim; split.
  - intros c t H.
    destruct (trimEnd_split (trimStart s)) as [ws [Hs _]].
    rewrite H in Hs; exact (trimStart_head s c (t ++ ws) Hs).
  - intros t c H; exact (trimEnd_last (trimStart s) t c H).
Qed.

Lemma trim_split s :
  exists a b, s = a ++ trim s ++ b
              /\ forallb is_ws a = true /\ forallb is_ws b = true.
Proof.
  destruct (trimStart_split s) as [a [Hs Ha]].
  destruct (trimEnd_split (trimStart s)) as [b [Ht Hb]].
  exists a, b; unfold trim; now rewrite <- Ht.
Qed.

Lemma trim_snoc t c : is_ws c = false -> trim (t ++ [c]) = trimStart t ++ [c].
Proof.
  intros Hc; unfold trim; rewrite (trimStart_snoc t c Hc).
  now apply trimEnd_snoc.
Qed.

Lemma list_snoc_cases (s : jsstring) : s = [] \/ exists t c, s = t ++ [c].
Proof.
  destruct (rev s) as [|c r] eqn:H.
  - left; apply (f_equal (@rev N)) in H; now rewrite rev_involutive in H.
  - right; exists (rev r), c.
    apply (f_equal (@rev N)) in H; now rewrite rev_involutive in H.
Qed.

End TrimFacts.

Section HeadsignShape.

Import Decode.

Local Abbreviation not_terminator := (fun c => negb (is_line_terminator c)).

Lemma dot_plus_end_some t g :
  dot_plus_end t = Some g -> g = t /\ g <> [] /\ forallb not_terminator g = true.
Proof.
  destruct t as [|c t]; [discriminate|]; unfold dot_plus_end.
  destruct (forallb _ (c :: t)) eqn:H; [|discriminate].
  intros [= <-]; repeat split; [discriminate | exact H].
Qed.

Lemma ws_star_then_capture_some t : forall g,
  ws_star_then_capture t = Some g ->
  (exists pre, t = pre ++ g) /\ g <> [] /\ forallb not_terminator g = true.
Proof.
  induction t as [|c t IH]; intros g; cbn [ws_star_then_capture].
  - discriminate.
  - destruct (is_ws c).
    + destruct (ws_star_then_capture t) as [r|] eqn:Hr.
      * intros [= <-]; destruct (IH r eq_refl) as ([pre Hpre] & Hne & Hlt).
        split; [exists (c :: pre); now rewrite Hpre | now split].
      * intros H; destruct (dot_plus_end_some _ _ H) as (-> & Hne & Hlt).
        split; [now exists [] | now split].
    + intros H; destruct (dot_plus_end_some _ _ H) as (-> & Hne & Hlt).
      split; [now exists [] | now split].
Qed.

Lemma match_here_some s g :
  match_here s = Some g ->
  (exists pre, s = pre ++ g) /\ g <> [] /\ forallb not_terminator g = true.
Proof.
  destruct s as [|c1 r1]; [discriminate|]; cbn [match_here].
  destruct (is_separator c1); [|discriminate].
  assert (Hone : ws_star_then_capture r1 = Some g ->
                 (exists pre, c1 :: r1 = pre ++ g) /\ g <> []
                 /\ forallb not_terminator g = true).
  { intros H; destruct (ws_star_then_capture_some r1 g H) as ([pre Hpre] & Hne & Hlt).
    split; [exists (c1 :: pre); now rewrite Hpre | now split]. }
  destruct r1 as [|c2 r2]; [exact Hone|].
  destruct (is_separator c2); [|exact Hone].
  destruct (ws_star_then_capture r2) as [r|] eqn:Hr; [|exact Hone].
  intros [= <-]; destruct (ws_star_then_capture_some r2 r Hr) as ([pre Hpre] & Hne & Hlt).
  split; [exists (c1 :: c2 :: pre); now rewrite Hpre | now split].
Qed.

Lemma separatorMatch_some s : forall g,
  separatorMatch s = Some g ->
  (exists pre, s = pre ++ g) /\ g <> [] /\ forallb not_terminator g = true.
Proof.
  induction s as [|c s IH]; intros g.
  - cbn; discriminate.
  - cbn [separatorMatch]; destruct (match_here (c :: s)) as [r|] eqn:Hm.
    + intros [= <-]; now apply match_here_some.
    + intros H; destruct (IH g H) as ([pre Hpre] & Hne & Hlt).
      split; [exists (c :: pre); now rewrite Hpre | now split].
Qed.

Lemma separatorMatch_without_separator s :
  forallb (fun c => negb (is_separator c)) s = true -> separatorMatch s = None.
Proof.
  intros H; rewrite <- (List.app_nil_r s), (separatorMatch_skip s [] H).
  reflexivity.
Qed.

Lemma forallb_infix (P : N -> bool) a h b :
  forallb P (a ++ h ++ b) = true -> forallb P h = true.
Proof.
  rewrite !forallb_app; intros H.
  apply andb_prop in H as [_ H]; now apply andb_prop in H as [H _].
Qed.

Lemma trim_all_ws l : forallb is_ws l = true -> trim l = [].
Proof.
  intros H; unfold trim.
  replace (trimStart l) with (@nil N); [reflexivity|].
  induction l as [|c l IH]; [reflexivity|].
  cbn in H; apply andb_prop in H as [Hc Hl]; cbn [trimStart]; rewrite Hc.
  now apply IH.
Qed.

(** X1. A headsign that the fallback derives from a label is never empty,
    has no white space at either end, contains no line terminator, and
    occurs in the label. *)
Theorem derived_headsign_shape :
  forall label h,
    deriveHeadsignFromLabel label = Some h ->
    exists l, label = Some l
      /\ h <> []
      /\ no_outer_ws h
      /\ forallb (fun c => negb (is_line_terminator c)) h = true
      /\ occurs_in h l.
Proof.
  intros label h; unfold deriveHeadsignFromLabel.
  destruct (truthy label); [|discriminate]; cbn [negb].
  destruct label as [l|]; [|discriminate]; cbv zeta.
  destruct (truthy (Some (trim l))); [|discriminate]; cbn [negb].
  destruct (separatorMatch (trim l)) as [g|] eqn:Hg; [|discriminate].
  destruct (separatorMatch_some (trim l) g Hg) as ([pre Hpre] & Hne & Hlt).
  destruct (truthy (Some g)); [|discriminate]; intros [= <-].
  exists l; split; [reflexivity|].
  destruct (trim_split g) as (a & b & Hgs & _ & _).
  destruct (trim_split l) as (a' & b' & Hls & _ & _).
  split; [|split; [apply trim_no_outer_ws|split]].
  - destruct (list_snoc_cases g) as [->|(t & c & ->)]; [now elim Hne|].
    assert (Hc : is_ws c = false).
    { apply (proj2 (trim_no_outer_ws l) (pre ++ t) c).
      now rewrite Hpre, List.app_assoc. }
    rewrite (trim_snoc t c Hc); now destruct (trimStart t).
  - rewrite Hgs in Hlt; exact (forallb_infix _ a (trim g) b Hlt).
  - exists (a' ++ pre ++ a), (b ++ b').
    rewrite Hls at 1; rewrite Hpre, Hgs at 1.
    now rewrite <- !List.app_assoc.
Qed.

Lemma derived_headsign_shape_witness :
  exists l, Some (str " 7 -> Dworzec ") = Some l
    /\ str "Dworzec" <> []
    /\ no_outer_ws (str "Dworzec")
    /\ forallb (fun c => negb (is_line_terminator c)) (str "Dworzec") = true
    /\ occurs_in (str "Dworzec") l.
Proof.
  exact (derived_headsign_shape (Some (str " 7 -> Dworzec ")) (str "Dworzec")
           eq_refl).
Defined.

(** X2. The fallback gives null for a label that is null, empty or made of
    white space only, and for a label that contains none of the separators
    (hyphen, en dash, greater-than). *)
Theorem no_headsign_without_separator :
  deriveHeadsignFromLabel None = None
  /\ (forall l, forallb is_ws l = true -> deriveHeadsignFromLabel (Some l) = None)
  /\ (forall l, forallb (fun c => negb (is_separator c)) l = true ->
                deriveHeadsignFromLabel (Some l) = None).
Proof.
  split; [reflexivity|split].
  - intros l H; unfold deriveHeadsignFromLabel.
    destruct (truthy (Some l)); [|reflexivity]; cbn [negb]; cbv zeta.
    now rewrite (trim_all_ws l H).
  - intros l H; unfold deriveHeadsignFromLabel.
    destruct (truthy (Some l)); [|reflexivity]; cbn [negb]; cbv zeta.
    destruct (truthy (Some (trim l))); [|reflexivity]; cbn [negb].
    destruct (trim_split l) as (a & b & Hl & _ & _).
    rewrite Hl in H; apply forallb_infix in H.
    now rewrite (separatorMatch_without_separator (trim l) H).
Qed.

Lemma no_headsign_without_separator_witness :
  deriveHeadsignFromLabel (Some (str "   ")) = None
  /\ deriveHeadsignFromLabel (Some (str "Tram 1234")) = None.
Proof.
  destruct no_headsign_without_separator as (_ & Hws & Hsep).
  split; [apply Hws | apply Hsep]; reflexivity.
Defined.

Lemma trimmed_some (o : option jsstring) l :
  match o with Some x => Some (trim x) | None => None end = Some l ->
  no_outer_ws l.
Proof. destruct o; [|discriminate]; intros [= <-]; apply trim_no_outer_ws. Qed.

Lemma trimmed_some_if_truthy (o : option jsstring) l :
  (if truthy o
   then match o with Some x => Some (trim x) | None => None end
   else None) = Some l ->
  no_outer_ws l.
Proof. destruct (truthy o); [apply trimmed_some | discriminate]. Qed.

(** X3. The label and the headsign of a record, when it has them, carry no
    white space at either end. *)
Theorem record_strings_are_trimmed :
  forall entity vehicle position,
    (forall l, Item.label (build entity vehicle position) = Some l ->
               no_outer_ws l)
    /\ (forall h, Item.headsign (build entity vehicle position) = Some h ->
                  no_outer_ws h).
Proof.
  intros entity vehicle position; unfold build; cbv zeta;
    cbn [Item.label Item.headsign]; split.
  - intros l H; eapply trimmed_some; exact H.
  - intros h H; eapply trimmed_some_if_truthy; exact H.
Qed.

End HeadsignShape.

(** ** Records *)

Section RecordFacts.

Import Decode.

Lemma record_strings_are_trimmed_witness :
  no_outer_ws (str "12-Lagiewnicka") /\ no_outer_ws (str "Lagiewnicka").
Proof.
  destruct (record_strings_are_trimmed sample_entity sample_vehicle
              sample_position) as [Hl Hh].
  split; [apply Hl | apply Hh]; reflexivity.
Defined.

Lemma collect_app a b : collect (a ++ b) = collect a ++ collect b.
Proof. now rewrite !collect_flat_map, flat_map_app. Qed.

Lemma visit_kept_length e :
  List.length (visit [] e) = if skipped e then 0%nat else 1%nat.
Proof.
  unfold visit, skipped.
  destruct (FeedEntity.vehicle e) as [v|]; [|reflexivity].
  destruct (VehiclePosition.position v) as [p|]; [|reflexivity].
  destruct (Position.latitude p), (Position.longitude p); reflexivity.
Qed.

(** Every record comes out of [build] on an entity of the feed. *)
Lemma collect_built es r :
  In r (collect es) ->
  exists entity vehicle position,
    In entity es /\ FeedEntity.vehicle entity = Some vehicle
    /\ VehiclePosition.position vehicle = Some position
    /\ r = build entity vehicle position.
Proof.
  rewrite collect_flat_map, in_flat_map; intros [e [He Hr]].
  unfold visit in Hr; destruct (skipped e); [destruct Hr|].
  destruct (FeedEntity.vehicle e) as [v|] eqn:Hv; [|destruct Hr].
  destruct (VehiclePosition.position v) as [p|] eqn:Hp; [|destruct Hr].
  destruct Hr as [<-|[]]; now exists e, v, p.
Qed.

(** X4. The records follow the entities: decoding keeps the upstream order
    (the records of a concatenation are the concatenation of the records),
    and there is exactly one record for each entity that has a vehicle with
    a position, a latitude and a longitude. *)
Theorem records_follow_entities :
  forall a b,
    collect (a ++ b) = collect a ++ collect b
    /\ List.length (collect a)
       = List.length (filter (fun e => negb (skipped e)) a).
Proof.
  intros a b; split; [apply collect_app|].
  rewrite collect_flat_map; induction a as [|e a IH]; [reflexivity|].
  cbn [flat_map filter]; rewrite List.length_app, visit_kept_length, IH.
  destruct (skipped e); reflexivity.
Qed.

(** X5. The vehicle type of a record is the type of the vehicle descriptor
    when the feed gives one, 0 included; failing that the trip's [routeType]
    when the trip has that property, whatever it holds; failing that the
    trip's [route_type]. *)
Theorem vehicleType_precedence :
  forall entity vehicle position,
    (forall t, VehicleDescriptor.type (descriptor_of vehicle) = Own (Some t) ->
               Item.vehicleType (build entity vehicle position) = Some t)
    /\ (forall v, get (VehicleDescriptor.type (descriptor_of vehicle)) = None ->
                  TripDescriptor.routeType (trip_of vehicle) = Own v ->
                  Item.vehicleType (build entity vehicle position) = v)
    /\ (get (VehicleDescriptor.type (descriptor_of vehicle)) = None ->
        TripDescriptor.routeType (trip_of vehicle) = Absent ->
        Item.vehicleType (build entity vehicle position)
        = get (TripDescriptor.route_type (trip_of vehicle))).
Proof.
  intros entity vehicle position; unfold build; cbv zeta;
    cbn [Item.vehicleType]; repeat split.
  - intros t Ht; rewrite Ht; reflexivity.
  - intros v Ht Hr; rewrite Hr.
    destruct (VehicleDescriptor.type (descriptor_of vehicle)) as [|[t|]];
      cbn in *; try discriminate; reflexivity.
  - intros Ht Hr; rewrite Hr.
    destruct (VehicleDescriptor.type (descriptor_of vehicle)) as [|[t|]];
      cbn in *; try discriminate;
      now destruct (TripDescriptor.route_type (trip_of vehicle)).
Qed.

Lemma vehicleType_precedence_witness :
  Item.vehicleType
    (build sample_entity
       (VehiclePosition.mk
          (Some (TripDescriptor.mk None None None None None None None None None
                   Absent Absent (Own (Some 3%Z)) Absent))
          (Some (VehicleDescriptor.mk None None (Own (Some 0%Z))))
          (Some sample_position) None None)
       sample_position) = Some 0%Z.
Proof.
  refine (proj1 (vehicleType_precedence _ _ _) 0%Z _); reflexivity.
Defined.

(** X6. The id of a record is the id of the vehicle descriptor when that is
    not empty, else the descriptor's label when that is not empty, else the
    id of the entity when that is not empty, else null; it is never the
    empty string. *)
Theorem record_id_fallback :
  forall entity vehicle position,
    Item.id (build entity vehicle position)
    = (if truthy (VehicleDescriptor.id (descriptor_of vehicle))
       then VehicleDescriptor.id (descriptor_of vehicle)
       else if truthy (VehicleDescriptor.label (descriptor_of vehicle))
            then VehicleDescriptor.label (descriptor_of vehicle)
            else if truthy (FeedEntity.id entity)
                 then FeedEntity.id entity
                 else None)
    /\ Item.id (build entity vehicle position) <> Some [].
Proof.
  intros entity vehicle position; unfold build; cbv zeta; cbn [Item.id].
  unfold or_else.
  destruct (VehicleDescriptor.id (descriptor_of vehicle)) as [[|c i]|];
    destruct (VehicleDescriptor.label (descriptor_of vehicle)) as [[|c' l]|];
    destruct (FeedEntity.id entity) as [[|c'' e]|];
    cbn; split; (reflexivity || discriminate).
Qed.

(** The truthiness the records rely on: a number that is kept is neither
    zero nor NaN. *)
Lemma num_or_null_some x v : num_or_null x = Some v -> num_truthy v = true.
Proof.
  destruct x as [y|]; [|discriminate]; cbn.
  destruct (num_truthy y) eqn:H; [|discriminate].
  now intros [= <-].
Qed.

(** X7. In every record of a decode, a bearing or a speed that is present
    is neither zero nor NaN: a zero of either sign and NaN are emitted as
    null. *)
Theorem record_numbers :
  forall es r,
    In r (collect es) ->
    (forall b, Item.bearing r = Some b -> num_truthy b = true)
    /\ (forall s, Item.speed r = Some s -> num_truthy s = true).
Proof.
  intros es r Hr.
  destruct (collect_built es r Hr) as (e & v & p & _ & _ & _ & ->).
  unfold build; cbv zeta; cbn [Item.bearing Item.speed].
  split.
  - intros b; apply num_or_null_some.
  - intros s; apply num_or_null_some.
Qed.

Lemma record_numbers_witness :
  num_truthy 90%float = true.
Proof.
  exact (proj1 (record_numbers
    [FeedEntity.mk None
       (Some (VehiclePosition.mk None None
                (Some (Position.mk (Some 51.75%float) (Some 19.5%float)
                         (Some 90%float) None))
                None None))]
    _ (or_introl eq_refl)) 90%float eq_refl).
Defined.

End RecordFacts.

(** ** Configuration *)

Section ConfigurationFacts.

Import Config Service.

Local Open Scope Z_scope.

Lemma createServer_keeps_valid u r s f m :
  u <> [] -> MIN_REFRESH_INTERVAL_MS <= r -> r * 2 <= s -> 0 < f -> r < m ->
  createServer (mkOptions (Some u) (Finite r) (Finite s) (Finite f) (Finite m))
  = Some (mkConfig u r s f m).
Proof.
  unfold MIN_REFRESH_INTERVAL_MS; intros Hu Hr Hs Hf Hm.
  unfold createServer; cbn [feedUrl opt_refreshIntervalMs opt_staleAfterMs
                              opt_fetchTimeoutMs opt_maxBackoffMs].
  assert (Er : validate_refreshIntervalMs (Finite r) = r).
  { unfold validate_refreshIntervalMs, MIN_REFRESH_INTERVAL_MS; cbn.
    destruct (Z.leb_spec r 0); [lia|]. destruct (Z.ltb_spec r 5000); lia. }
  rewrite Er; cbv zeta.
  assert (Es : validate_staleAfterMs r (Finite s) = s).
  { unfold validate_staleAfterMs; cbn.
    destruct (Z.leb_spec s 0); [lia|]. destruct (Z.ltb_spec s (r * 2)); lia. }
  assert (Ef : validate_fetchTimeoutMs (Finite f) = f).
  { unfold validate_fetchTimeoutMs; cbn. destruct (Z.leb_spec f 0); lia. }
  assert (Em : validate_maxBackoffMs r (Finite m) = m).
  { unfold validate_maxBackoffMs; cbn. destruct (Z.leb_spec m r); lia. }
  rewrite Es, Ef, Em; destruct u; [now elim Hu | reflexivity].
Qed.

Lemma createServer_all_bounds o cfg :
  createServer o = Some cfg ->
  5000 <= refreshIntervalMs cfg
  /\ 2 * refreshIntervalMs cfg <= staleAfterMs cfg
  /\ 0 < fetchTimeoutMs cfg
  /\ refreshIntervalMs cfg < maxBackoffMs cfg
  /\ feedUrl o = Some (cfg_feedUrl cfg)
  /\ cfg_feedUrl cfg <> [].
Proof.
  intros H.
  destruct (createServer_valid o cfg H) as (Hr & Hm & Hs).
  unfold MIN_REFRESH_INTERVAL_MS in Hr.
  split; [exact Hr|]. split; [lia|].
  unfold createServer in H; cbv zeta in H.
  destruct (truthy (Config.feedUrl o)) eqn:Hu; [|discriminate].
  destruct (Config.feedUrl o) as [u|]; [|discriminate].
  injection H as <-; cbn [fetchTimeoutMs cfg_feedUrl].
  split; [apply (reject_unless_above_gt _ 0 10000); lia|].
  split; [exact Hm|]. split; [reflexivity|].
  now destruct u.
Qed.

(** X8. Whatever the options, the configuration [createServer] runs with has
    a refresh interval of at least 5000 ms, a staleness threshold of at least
    twice the interval, a positive fetch timeout, a backoff ceiling above the
    interval, and the feed address that was given, which is not empty. *)
Theorem configuration_bounds :
  forall o cfg,
    createServer o = Some cfg ->
    5000 <= refreshIntervalMs cfg
    /\ 2 * refreshIntervalMs cfg <= staleAfterMs cfg
    /\ 0 < fetchTimeoutMs cfg
    /\ refreshIntervalMs cfg < maxBackoffMs cfg
    /\ feedUrl o = Some (cfg_feedUrl cfg)
    /\ cfg_feedUrl cfg <> [].
Proof. exact createServer_all_bounds. Qed.

Lemma configuration_bounds_witness :
  5000 <= refreshIntervalMs sample_config
  /\ 2 * refreshIntervalMs sample_config <= staleAfterMs sample_config
  /\ 0 < fetchTimeoutMs sample_config
  /\ refreshIntervalMs sample_config < maxBackoffMs sample_config
  /\ feedUrl sample_options = Some (cfg_feedUrl sample_config)
  /\ cfg_feedUrl sample_config <> [].
Proof. exact (configuration_bounds sample_options sample_config eq_refl). Defined.

(** X10. The [options] that a server returns describe it: [createServer] on
    the options it returned gives the same configuration again, nothing is
    defaulted or clamped a second time. *)
Theorem returned_options_round_trip :
  forall o cfg,
    createServer o = Some cfg ->
    createServer (returned_options cfg) = Some cfg.
Proof.
  intros o cfg H.
  destruct (createServer_all_bounds o cfg H) as (Hr & Hs & Hf & Hm & _ & Hu).
  destruct cfg as [u r s f m];
    cbn [refreshIntervalMs staleAfterMs fetchTimeoutMs maxBackoffMs cfg_feedUrl] in *.
  unfold returned_options;
    cbn [refreshIntervalMs staleAfterMs fetchTimeoutMs maxBackoffMs cfg_feedUrl].
  apply createServer_keeps_valid; unfold MIN_REFRESH_INTERVAL_MS; auto; lia.
Qed.

Lemma returned_options_round_trip_witness :
  createServer (returned_options sample_config) = Some sample_config.
Proof.
  exact (returned_options_round_trip sample_options sample_config eq_refl).
Defined.

(** X11. Started through [main.js] with MAX_BACKOFF_MS not set, the server
    runs with the documented ceiling, max(8 * interval, 5 minutes), the
    interval being the validated one, whatever REFRESH_INTERVAL_MS is. *)
Theorem main_default_ceiling :
  forall url e,
    url <> [] ->
    ENV_MAX_BACKOFF_MS e = None ->
    exists cfg,
      createServer (main_options url e) = Some cfg
      /\ maxBackoffMs cfg = Z.max (8 * refreshIntervalMs cfg) 300000.
Proof.
  intros url e Hu He.
  unfold createServer, main_options, MAX_BACKOFF_MS; rewrite He.
  cbn [feedUrl opt_refreshIntervalMs opt_staleAfterMs opt_fetchTimeoutMs
         opt_maxBackoffMs parseEnvInt]; cbv zeta.
  destruct url as [|c url]; [now elim Hu|]; cbn [truthy].
  eexists; split; [reflexivity|]; cbn [maxBackoffMs refreshIntervalMs].
  unfold validate_maxBackoffMs, validate_refreshIntervalMs,
    MIN_REFRESH_INTERVAL_MS, reject_unless_above, or_default; cbv zeta.
  set (R := REFRESH_INTERVAL_MS e).
  repeat match goal with
         | |- context [(?a <=? ?b)] => destruct (Z.leb_spec a b)
         | |- context [(?a <? ?b)] => destruct (Z.ltb_spec a b)
         end; lia.
Qed.

Lemma main_default_ceiling_witness :
  exists cfg,
    createServer (main_options (str "https://feed")
                    (mkEnv (Some 60000) None None None)) = Some cfg
    /\ maxBackoffMs cfg = Z.max (8 * refreshIntervalMs cfg) 300000.
Proof.
  apply main_default_ceiling; [discriminate | reflexivity].
Defined.

(** X12. Started through [main.js] with STALE_AFTER_MS not set, the
    staleness threshold is four times the validated interval, unless
    REFRESH_INTERVAL_MS lies strictly between 0 and 5000: the interval is
    then raised to 5000 and the threshold is max(4 * REFRESH_INTERVAL_MS,
    10000). *)
Theorem main_default_staleness :
  forall url e,
    url <> [] ->
    ENV_STALE_AFTER_MS e = None ->
    exists cfg,
      createServer (main_options url e) = Some cfg
      /\ (REFRESH_INTERVAL_MS e <= 0 \/ 5000 <= REFRESH_INTERVAL_MS e ->
          staleAfterMs cfg = 4 * refreshIntervalMs cfg)
      /\ (0 < REFRESH_INTERVAL_MS e < 5000 ->
          refreshIntervalMs cfg = 5000
          /\ staleAfterMs cfg = Z.max (4 * REFRESH_INTERVAL_MS e) 10000).
Proof.
  intros url e Hu He.
  unfold createServer, main_options; rewrite He.
  cbn [feedUrl opt_refreshIntervalMs opt_staleAfterMs opt_fetchTimeoutMs
         opt_maxBackoffMs parseEnvInt]; cbv zeta.
  destruct url as [|c url]; [now elim Hu|]; cbn [truthy].
  eexists; split; [reflexivity|]; cbn [staleAfterMs refreshIntervalMs].
  unfold validate_staleAfterMs, validate_refreshIntervalMs,
    MIN_REFRESH_INTERVAL_MS, reject_unless_above, or_default; cbv zeta.
  set (R := REFRESH_INTERVAL_MS e).
  split; intros HR;
    repeat match goal with
           | |- context [(?a <=? ?b)] => destruct (Z.leb_spec a b)
           | |- context [(?a <? ?b)] => destruct (Z.ltb_spec a b)
           end; lia.
Qed.

Lemma main_default_staleness_witness :
  exists cfg,
    createServer (main_options (str "https://feed")
                    (mkEnv (Some 1000) None None None)) = Some cfg
    /\ (1000 <= 0 \/ 5000 <= 1000 -> staleAfterMs cfg = 4 * refreshIntervalMs cfg)
    /\ (0 < 1000 < 5000 ->
        refreshIntervalMs cfg = 5000
        /\ staleAfterMs cfg = Z.max (4 * 1000) 10000).
Proof.
  exact (main_default_staleness (str "https://feed")
           (mkEnv (Some 1000) None None None)
           ltac:(discriminate) eq_refl).
Defined.

End ConfigurationFacts.

(** ** The retry schedule and the timer *)

Section ScheduleFacts.

Import Config Server Service.

Variable stringify : list Item.t -> jsstring.
Variable sha1hex : jsstring -> jsstring.

Local Abbreviation initial := (Server.initial sha1hex).
Local Abbreviation update := (Server.update stringify sha1hex).
Local Abbreviation replay := (Server.replay stringify sha1hex).
Local Abbreviation expire := (Service.expire stringify sha1hex).
Local Abbreviation start := (Service.start stringify sha1hex).

Local Open Scope Z_scope.

Lemma backoffMultiplier_range n : 1 <= backoffMultiplier n <= 16.
Proof.
  unfold backoffMultiplier, MAX_BACKOFF_MULTIPLIER.
  assert (0 < 2 ^ Z.max 0 (n - 1)) by (apply Z.pow_pos_nonneg; lia).
  lia.
Qed.

Lemma backoffMultiplier_one n : n <= 1 -> backoffMultiplier n = 1.
Proof.
  intros H; unfold backoffMultiplier; now rewrite Z.max_l by lia.
Qed.

Lemma backoffMultiplier_cap n : 5 <= n -> backoffMultiplier n = 16.
Proof.
  intros H; unfold backoffMultiplier, MAX_BACKOFF_MULTIPLIER.
  rewrite Z.max_r by lia; apply Z.min_r.
  change 16 with (2 ^ 4); apply Z.pow_le_mono_r; lia.
Qed.

Lemma delay_without_backoff o cfg n :
  createServer o = Some cfg -> n <= 1 -> delay cfg n = refreshIntervalMs cfg.
Proof.
  intros Ho Hn.
  destruct (createServer_valid o cfg Ho) as (Hr & Hm & _).
  unfold delay; rewrite (backoffMultiplier_one n Hn); lia.
Qed.

(** X13. On a configured server the delay before the next refresh is never
    shorter than the refresh interval, and the first failure does not
    lengthen it: with at most one consecutive failure the delay is the
    interval itself. *)
Theorem delay_at_least_interval :
  forall o cfg n,
    createServer o = Some cfg ->
    refreshIntervalMs cfg <= delay cfg n
    /\ (n <= 1 -> delay cfg n = refreshIntervalMs cfg).
Proof.
  intros o cfg n Ho.
  destruct (createServer_valid o cfg Ho) as (Hr & Hm & _).
  unfold MIN_REFRESH_INTERVAL_MS in Hr.
  pose proof (backoffMultiplier_range n) as Hb.
  unfold delay; split.
  - apply Z.min_glb; [nia | lia].
  - now apply (delay_without_backoff o).
Qed.

Lemma delay_at_least_interval_witness :
  refreshIntervalMs sample_config <= delay sample_config 7
  /\ delay sample_config 1 = refreshIntervalMs sample_config.
Proof.
  split.
  - exact (proj1 (delay_at_least_interval sample_options sample_config 7 eq_refl)).
  - apply (proj2 (delay_at_least_interval sample_options sample_config 1 eq_refl)).
    lia.
Defined.

(** X14. From the fifth consecutive failure on the delay stays at
    min(16 * interval, ceiling): the multiplier is capped at 16. *)
Theorem delay_saturates :
  forall cfg n,
    5 <= n ->
    delay cfg n = Z.min (refreshIntervalMs cfg * 16) (maxBackoffMs cfg).
Proof.
  intros cfg n Hn; unfold delay; now rewrite (backoffMultiplier_cap n Hn).
Qed.

Lemma delay_saturates_witness :
  delay sample_config 40
  = Z.min (refreshIntervalMs sample_config * 16) (maxBackoffMs sample_config).
Proof. apply delay_saturates; lia. Defined.

(** X15. The failure counter is the number of failures since the last
    success, whatever happened before it; so right after a successful
    refresh the delay of the next one is the refresh interval again. *)
Theorem success_resets_backoff :
  forall o cfg st status statusText entities now history,
    createServer o = Some cfg ->
    Forall (fun h => exists err, attempt (fst h) = inl err) history ->
    consecutiveFailures
      (replay (update st (Response true status statusText (Decoded entities)) now)
         history)
    = Z.of_nat (List.length history)
    /\ delay cfg
         (consecutiveFailures
            (update st (Response true status statusText (Decoded entities)) now))
       = refreshIntervalMs cfg.
Proof.
  intros o cfg st status statusText entities now history Ho Hfail; split.
  - rewrite (replay_failures stringify sha1hex history _ Hfail); reflexivity.
  - apply (delay_without_backoff o cfg _ Ho); cbn; lia.
Qed.

Lemma expire_armed st tm d up now :
  refreshTimer tm = Some d -> hasStopped tm = false ->
  forall cfg,
    expire cfg (st, tm) (up, now)
    = (update st up now,
       mkTimers (Some (delay cfg (consecutiveFailures (update st up now)))) false).
Proof.
  intros Ht Hs cfg; unfold Service.expire; cbn [fst snd]; rewrite Ht, Hs.
  reflexivity.
Qed.

(** X16. The schedule perpetuates itself: on a server that was not stopped
    and has a timer armed, after any number of expirations, whatever each
    refresh brings, the state is the one the refreshes produce in turn and a
    timer is armed again, with the delay that the failure counter then
    calls for. *)
Theorem schedule_perpetuates :
  forall cfg st tm d history,
    refreshTimer tm = Some d ->
    hasStopped tm = false ->
    fst (fold_left (expire cfg) history (st, tm)) = replay st history
    /\ hasStopped (snd (fold_left (expire cfg) history (st, tm))) = false
    /\ refreshTimer (snd (fold_left (expire cfg) history (st, tm))) <> None
    /\ (history <> [] ->
        refreshTimer (snd (fold_left (expire cfg) history (st, tm)))
        = Some (delay cfg (consecutiveFailures (replay st history)))).
Proof.
  intros cfg st tm d history; revert st tm d.
  induction history as [|[up now] history IH]; intros st tm d Ht Hs.
  - cbn; rewrite Ht; repeat split; [exact Hs | discriminate | now intros []].
  - cbn [fold_left Server.replay fst snd].
    rewrite (expire_armed st tm d up now Ht Hs cfg).
    destruct (IH (update st up now)
                (mkTimers (Some (delay cfg (consecutiveFailures (update st up now)))) false)
                _ eq_refl eq_refl) as (H1 & H2 & H3 & H4).
    change (fold_left _ history (update st up now)) with (replay (update st up now) history).
    repeat split; [exact H1 | exact H2 | exact H3 |].
    intros _; destruct history as [|h history']; [reflexivity|].
    apply H4; discriminate.
Qed.

(** X18. [start()], run with no [stop()] arriving while it awaits its
    refresh, clears the stopped flag and arms one timer, with the delay that
    the failure counter calls for after that refresh: the refresh interval
    when the refresh succeeded or the counter was 0 before it (a server that
    starts for the first time), a longer delay when the refresh failed on
    top of failures counted earlier, which [stop()] does not reset. *)
Theorem start_arms_timer :
  forall o cfg st tm up now,
    createServer o = Some cfg ->
    snd (start cfg (st, tm) up now)
    = mkTimers (Some (delay cfg (consecutiveFailures (update st up now)))) false
    /\ (consecutiveFailures st = 0 ->
        snd (start cfg (st, tm) up now)
        = mkTimers (Some (refreshIntervalMs cfg)) false)
    /\ ((exists items, attempt up = inr items) ->
        snd (start cfg (st, tm) up now)
        = mkTimers (Some (refreshIntervalMs cfg)) false)
    /\ (forall err, attempt up = inl err ->
        snd (start cfg (st, stop tm) up now)
        = mkTimers (Some (delay cfg (consecutiveFailures st + 1))) false).
Proof.
  intros o cfg st tm up now Ho.
  assert (H : forall tm', snd (start cfg (st, tm') up now)
              = mkTimers (Some (delay cfg (consecutiveFailures (update st up now))))
                  false) by reflexivity.
  split; [apply H|split; [|split]].
  - intros H0; rewrite H; do 2 f_equal.
    apply (delay_without_backoff o cfg _ Ho).
    unfold Server.update; destruct (attempt up); cbn; lia.
  - intros [items Hi]; rewrite H; do 2 f_equal.
    apply (delay_without_backoff o cfg _ Ho).
    unfold Server.update; rewrite Hi; cbn; lia.
  - intros err He; rewrite H; do 3 f_equal.
    unfold Server.update; now rewrite He.
Qed.

End ScheduleFacts.

Lemma success_resets_backoff_witness :
  Server.consecutiveFailures
    (Server.replay sample_stringify sample_sha1hex
       sample_state
       [(Server.Rejected sample_error, 2000%Z);
        (Server.Rejected sample_error, 3000%Z)])
  = 2%Z
  /\ Server.delay sample_config
       (Server.consecutiveFailures sample_state)
     = Config.refreshIntervalMs sample_config.
Proof.
  apply (success_resets_backoff sample_stringify sample_sha1hex sample_options
           sample_config (Server.initial sample_sha1hex) 200%Z (str "OK")
           [sample_entity] 1000%Z); [reflexivity|].
  repeat constructor; now exists sample_error.
Defined.

Lemma schedule_perpetuates_witness :
  Service.refreshTimer
    (snd (fold_left
            (Service.expire sample_stringify sample_sha1hex sample_config)
            [(Server.Rejected sample_error, 2000%Z);
             (Server.Rejected sample_error, 3000%Z);
             (Server.Rejected sample_error, 4000%Z)]
            (Server.initial sample_sha1hex,
             Service.mkTimers (Some 10000%Z) false)))
  = Some 40000%Z.
Proof.
  refine (eq_trans
    (proj2 (proj2 (proj2
      (schedule_perpetuates sample_stringify sample_sha1hex sample_config
         (Server.initial sample_sha1hex)
         (Service.mkTimers (Some 10000%Z) false) 10000%Z
         [(Server.Rejected sample_error, 2000%Z);
          (Server.Rejected sample_error, 3000%Z);
          (Server.Rejected sample_error, 4000%Z)] eq_refl eq_refl)))
      ltac:(discriminate))
    _).
  reflexivity.
Defined.

Lemma start_arms_timer_witness :
  snd (Service.start sample_stringify sample_sha1hex sample_config
         (Server.initial sample_sha1hex, Service.mkTimers None false)
         (Server.Rejected sample_error) 1000%Z)
  = Service.mkTimers (Some (Config.refreshIntervalMs sample_config)) false
  /\ snd (Service.start sample_stringify sample_sha1hex sample_config
            (Server.update sample_stringify sample_sha1hex sample_state
               (Server.Rejected sample_error) 2000%Z,
             Service.stop (Service.mkTimers (Some 10000%Z) false))
            (Server.Rejected sample_error) 3000%Z)
     = Service.mkTimers (Some 20000%Z) false.
Proof.
  split.
  - apply (proj1 (proj2 (start_arms_timer sample_stringify sample_sha1hex
             sample_options sample_config (Server.initial sample_sha1hex)
             (Service.mkTimers None false) (Server.Rejected sample_error)
             1000%Z eq_refl))).
    reflexivity.
  - apply (proj2 (proj2 (proj2 (start_arms_timer sample_stringify sample_sha1hex
             sample_options sample_config
             (Server.update sample_stringify sample_sha1hex sample_state
                (Server.Rejected sample_error) 2000%Z)
             (Service.mkTimers (Some 10000%Z) false)
             (Server.Rejected sample_error) 3000%Z eq_refl))) sample_error).
    reflexivity.
Defined.

(** ** The handlers *)

Section HandlerFacts.

Import Config Server Service.

Variable stringify : list Item.t -> jsstring.
Variable sha1hex : jsstring -> jsstring.
Variable toISOString : Z -> jsstring.

Local Abbreviation computeEtag := (Server.computeEtag sha1hex).
Local Abbreviation initial := (Server.initial sha1hex).
Local Abbreviation update := (Server.update stringify sha1hex).
Local Abbreviation currentEtag := (Server.currentEtag sha1hex).
Local Abbreviation positions := (Server.positions sha1hex toISOString).
Local Abbreviation GET_positions := (Server.GET_positions stringify sha1hex toISOString).
Local Abbreviation healthz := (Service.healthz sha1hex toISOString).
Local Abbreviation getState := (Service.getState sha1hex).

Local Open Scope Z_scope.

Lemma header_app k a : forall b,
  header k (b ++ a)
  = match header k a with Some v => Some v | None => header k b end.
Proof.
  induction b as [|[k0 v0] b IH]; cbn [app header].
  - now destruct (header k a).
  - rewrite IH; now destruct (header k a).
Qed.

Lemma update_failure_isStale cfg st up now err later :
  attempt up = inl err ->
  isStale cfg (update st up now) later = isStale cfg st later.
Proof. intros H; now rewrite (update_failure stringify sha1hex st up now err H). Qed.

Lemma isStale_young cfg st now :
  lastUpdatedAtMs st <> 0 ->
  now - lastUpdatedAtMs st <= staleAfterMs cfg ->
  isStale cfg st now = false.
Proof.
  intros H0 H; unfold isStale, stalenessMs.
  destruct (Z.eqb_spec (lastUpdatedAtMs st) 0); [reflexivity|].
  apply Z.ltb_ge; exact H.
Qed.


(** X20. After a successful refresh [/healthz] answers 200 with [ok: true],
    no error, a failure counter of 0 and the age of the data, for as long as
    that age does not exceed the staleness threshold; past it the answer is
    503. *)
Theorem healthz_after_success :
  forall cfg st status statusText entities ts later,
    ts <> 0 ->
    (later - ts <= staleAfterMs cfg ->
     fst (healthz cfg (update st (Response true status statusText (Decoded entities)) ts) later)
     = 200
     /\ snd (healthz cfg (update st (Response true status statusText (Decoded entities)) ts) later)
        = Health.mk true (cfg_feedUrl cfg) (refreshIntervalMs cfg) (staleAfterMs cfg)
            (Some (toISOString ts)) (Some (later - ts)) 0 None)
    /\ (staleAfterMs cfg < later - ts ->
        fst (healthz cfg (update st (Response true status statusText (Decoded entities)) ts) later)
        = 503).
Proof.
  intros cfg st status statusText entities ts later Hts.
  unfold Service.healthz, Service.getState; cbv zeta.
  cbn [Server.update attempt negb commit lastUpdateError lastUpdatedAtMs
         consecutiveFailures StateView.lastUpdatedAtMs andb].
  destruct (Z.eqb_spec ts 0) as [|_]; [contradiction|].
  split; intros H.
  - destruct (Z.ltb_spec (staleAfterMs cfg) (later - ts)); [lia|].
    split; reflexivity.
  - destruct (Z.ltb_spec (staleAfterMs cfg) (later - ts)); [reflexivity | lia].
Qed.

(** The handler body and [/healthz] on one state. *)
Lemma positions_healthz_agree cfg st now inm :
    (status (positions cfg st now inm) = 503 -> fst (healthz cfg st now) = 503)
    /\ (fst (healthz cfg st now) = 200 ->
        status (positions cfg st now inm) <> 503
        /\ header "X-Feed-Error" (headers (positions cfg st now inm)) = None
        /\ header "X-Feed-Stale" (headers (positions cfg st now inm)) = None).
Proof.
  assert (Hh : fst (healthz cfg st now)
               = if negb (match lastUpdateError st with Some _ => true | None => false end)
                    && negb (isStale cfg st now)
                 then 200 else 503) by reflexivity.
  rewrite Hh; clear Hh; split.
  - intros H; destruct (isStale cfg st now) eqn:Hs.
    + now rewrite andb_false_r.
    + destruct (positions_status sha1hex toISOString cfg st now inm) as [E|E];
        rewrite E in H; [discriminate | rewrite Hs in H; discriminate].
  - destruct (lastUpdateError st) as [err|] eqn:He; [discriminate|].
    destruct (isStale cfg st now) eqn:Hs; [discriminate|]; intros _.
    split.
    + destruct (positions_status sha1hex toISOString cfg st now inm) as [E|E];
        rewrite E; [discriminate | rewrite Hs; discriminate].
    + unfold Server.positions; cbv zeta; rewrite He, Hs.
      destruct (negb false && _); cbn [headers];
        destruct (stalenessMs st now); destruct (lastUpdatedAtMs st =? 0);
        split; reflexivity.
Qed.

(** X21. The two endpoints agree on the state a [GET /positions] leaves
    behind, the refresh it may have run first included: when the request is
    answered 503, [/healthz] asked at the same instant answers 503; and when
    [/healthz] then answers 200, the request was not answered 503 and carried
    neither X-Feed-Error nor X-Feed-Stale.  A request on a snapshot that
    holds a vehicle leaves the state as it found it. *)
Theorem endpoints_agree :
  forall cfg st up tnow now inm,
    (status (snd (GET_positions cfg st up tnow now inm)) = 503 ->
     fst (healthz cfg (fst (GET_positions cfg st up tnow now inm)) now) = 503)
    /\ (fst (healthz cfg (fst (GET_positions cfg st up tnow now inm)) now) = 200 ->
        status (snd (GET_positions cfg st up tnow now inm)) <> 503
        /\ header "X-Feed-Error"
             (headers (snd (GET_positions cfg st up tnow now inm))) = None
        /\ header "X-Feed-Stale"
             (headers (snd (GET_positions cfg st up tnow now inm))) = None)
    /\ (vehicles st <> [] -> fst (GET_positions cfg st up tnow now inm) = st).
Proof.
  intros cfg st up tnow now inm.
  unfold Server.GET_positions; cbv zeta; cbn [fst snd].
  destruct (positions_healthz_agree cfg
              (Server.ensureLatest stringify sha1hex st up tnow) now inm)
    as [H1 H2].
  split; [exact H1|split; [exact H2|]].
  unfold Server.ensureLatest; destruct (vehicles st); [now intros [] | reflexivity].
Qed.

Lemma positions_etag_header cfg st now inm :
  header "ETag" (headers (positions cfg st now inm)) = Some (currentEtag st).
Proof.
  unfold Server.positions; cbv zeta.
  assert (H : forall hs, header "ETag" hs = Some (currentEtag st) ->
    header "ETag"
      (let h4 := match stalenessMs st now with
                 | Some s => hs ++ [("X-Feed-Staleness-Ms"%string, decimal s)]
                 | None => hs
                 end in
       if isStale cfg st now
       then h4 ++ [("X-Feed-Stale"%string, str "true");
                   ("Retry-After"%string,
                    decimal (ceil_div_1000 (refreshIntervalMs cfg)));
                   ("X-Feed-Warning"%string,
                    str "Data older than " ++ decimal (staleAfterMs cfg)
                      ++ str "ms")]
       else h4) = Some (currentEtag st)).
  { intros hs Hhs; cbv zeta.
    destruct (isStale cfg st now), (stalenessMs st now);
      rewrite ?header_app; cbn [header String.eqb Ascii.eqb Bool.eqb];
      exact Hhs. }
  destruct (negb _ && _); cbn [headers]; apply H;
    destruct (lastUpdateError st), (lastUpdatedAtMs st =? 0);
    rewrite ?header_app; reflexivity.
Qed.

(** X22. Every answer of [/positions], 304 and 503 included, carries the
    current ETag, the one [getState()] reports; after a refresh has succeeded
    at a time [ts] that ETag is the quoted timestamp, a hyphen and the digest
    of the body. *)
Theorem etag_everywhere :
  forall cfg st now inm,
    header "ETag" (headers (positions cfg st now inm))
    = Some (StateView.etag (getState cfg st now))
    /\ forall status statusText entities ts,
         ts <> 0 ->
         StateView.etag
           (getState cfg
              (update st (Response true status statusText (Decoded entities)) ts) now)
         = [quote] ++ decimal ts ++ str "-"
             ++ sha1hex (stringify (Decode.collect entities)) ++ [quote].
Proof.
  intros cfg st now inm; split; [apply positions_etag_header|].
  intros status statusText entities ts Hts.
  cbn [Service.getState StateView.etag].
  rewrite (update_success stringify sha1hex st status statusText entities ts).
  rewrite (currentEtag_consistent sha1hex
             (commit stringify sha1hex st (Decode.collect entities) ts) eq_refl).
  cbn [commit lastUpdatedAtMs vehiclesJson].
  unfold Server.computeEtag; destruct (Z.eqb_spec ts 0); [contradiction|].
  reflexivity.
Qed.

(** X23. Stale data is never answered 304: past the threshold the answer is
    503 with the cached body, X-Feed-Stale and a Retry-After of the refresh
    interval in whole seconds, rounded up, even when If-None-Match is the
    current ETag. *)
Theorem stale_is_never_not_modified :
  forall cfg st now inm,
    isStale cfg st now = true ->
    status (positions cfg st now inm) = 503
    /\ body (positions cfg st now inm) = Some (vehiclesJson st)
    /\ contentType (positions cfg st now inm) = Some (str "application/json")
    /\ header "X-Feed-Stale" (headers (positions cfg st now inm)) = Some (str "true")
    /\ header "Retry-After" (headers (positions cfg st now inm))
       = Some (decimal (ceil_div_1000 (refreshIntervalMs cfg)))
    /\ (refreshIntervalMs cfg <= 1000 * ceil_div_1000 (refreshIntervalMs cfg)
        < refreshIntervalMs cfg + 1000).
Proof.
  intros cfg st now inm H; unfold Server.positions; cbv zeta; rewrite H.
  cbn [negb andb status body contentType headers].
  repeat split; try (rewrite header_app; reflexivity).
  - unfold ceil_div_1000.
    pose proof (Z.div_mod (- refreshIntervalMs cfg) 1000 ltac:(lia)).
    pose proof (Z.mod_pos_bound (- refreshIntervalMs cfg) 1000 ltac:(lia)). lia.
  - unfold ceil_div_1000.
    pose proof (Z.div_mod (- refreshIntervalMs cfg) 1000 ltac:(lia)).
    pose proof (Z.mod_pos_bound (- refreshIntervalMs cfg) 1000 ltac:(lia)). lia.
Qed.

(** X24. Data younger than twice the refresh interval is never reported
    stale, whatever the options: after a refresh has succeeded, [/positions]
    does not answer 503 until more than two intervals (at least ten seconds)
    have passed. *)
Theorem fresh_data_is_not_stale :
  forall o cfg st now inm,
    createServer o = Some cfg ->
    lastUpdatedAtMs st <> 0 ->
    now - lastUpdatedAtMs st <= 2 * refreshIntervalMs cfg ->
    isStale cfg st now = false
    /\ (status (positions cfg st now inm) = 200
        \/ status (positions cfg st now inm) = 304)
    /\ 10000 <= 2 * refreshIntervalMs cfg.
Proof.
  intros o cfg st now inm Ho H0 Hage.
  destruct (createServer_valid o cfg Ho) as (Hr & _ & Hs).
  unfold MIN_REFRESH_INTERVAL_MS in Hr.
  assert (Hfresh : isStale cfg st now = false) by (apply isStale_young; lia).
  split; [exact Hfresh|split; [|lia]].
  destruct (positions_status sha1hex toISOString cfg st now inm) as [E|E];
    [now right | left; now rewrite E, Hfresh].
Qed.



(** X27. A snapshot without vehicles is fetched again by every request: after
    a successful refresh of a feed in which no entity has coordinates (an
    empty feed included), [GET /positions] on the idle server refreshes
    before it answers. *)
Theorem empty_snapshot_is_refetched :
  forall cfg st status statusText entities ts up tnow now inm,
    forallb Decode.skipped entities = true ->
    vehicles (update st (Response true status statusText (Decoded entities)) ts) = []
    /\ fst (GET_positions cfg
              (update st (Response true status statusText (Decoded entities)) ts)
              up tnow now inm)
       = update (update st (Response true status statusText (Decoded entities)) ts)
           up tnow.
Proof.
  intros cfg st status statusText entities ts up tnow now inm H.
  assert (Hv : Decode.collect entities = []).
  { rewrite collect_flat_map; induction entities as [|e es IH]; [reflexivity|].
    cbn in H; apply andb_prop in H as [He Hes]; cbn [flat_map].
    now rewrite (visit_skipped e He), (IH Hes). }
  unfold Server.GET_positions, Server.ensureLatest; cbv zeta.
  cbn [Server.update attempt negb commit vehicles fst]; rewrite Hv.
  split; reflexivity.
Qed.

End HandlerFacts.

(** ** Requests and refreshes that overlap *)

Section RequestFacts.

Import Config Server Service.

Variable stringify : list Item.t -> jsstring.
Variable sha1hex : jsstring -> jsstring.

Local Abbreviation update := (Server.update stringify sha1hex).
Local Abbreviation replay := (Server.replay stringify sha1hex).
Local Abbreviation step := (Server.step stringify sha1hex).
Local Abbreviation run := (Server.run stringify sha1hex).
Local Abbreviation serve := (Service.serve stringify sha1hex).

Lemma serve_ensureLatest_in_flight callers : forall sys waiters,
  inFlightUpdate sys = Some waiters ->
  fold_left serve (map CallEnsureLatest callers) sys
  = mkSystem (cache sys)
      (Some (waiters ++ map (fun c => (c, Returned)) callers))
      (fetchCalls sys) (resolved sys).
Proof.
  induction callers as [|c callers IH]; intros sys waiters H.
  - cbn; rewrite List.app_nil_r, <- H; now destruct sys.
  - cbn [map fold_left Service.serve]; rewrite H.
    rewrite (IH _ (waiters ++ [(c, Returned)])) by reflexivity.
    cbn [cache fetchCalls resolved map]; now rewrite <- List.app_assoc.
Qed.

(** X28. A burst of requests on an idle server whose snapshot is empty
    issues one upstream fetch: the first request starts the refresh and the
    others wait for it.  On a server whose snapshot holds a vehicle no
    request fetches or waits. *)
Theorem request_burst :
  forall st n c cs,
    (vehicles st = [] ->
     fold_left serve (map CallEnsureLatest (c :: cs)) (idle st n)
     = mkSystem st (Some ((c, Awaits) :: map (fun c' => (c', Returned)) cs))
         (S n) [])
    /\ (vehicles st <> [] ->
        fold_left serve (map CallEnsureLatest (c :: cs)) (idle st n) = idle st n).
Proof.
  intros st n c cs; split; intros Hv.
  - cbn [map fold_left Service.serve idle inFlightUpdate cache]; rewrite Hv.
    cbn [Server.step idle inFlightUpdate cache fetchCalls resolved].
    now rewrite (serve_ensureLatest_in_flight cs _ [(c, Awaits)]) by reflexivity.
  - assert (Hidle : forall callers,
              fold_left serve (map CallEnsureLatest callers) (idle st n) = idle st n).
    { induction callers as [|x callers IH]; [reflexivity|].
      cbn [map fold_left Service.serve idle inFlightUpdate cache].
      destruct (vehicles st) as [|r rs] eqn:E; [now elim Hv | exact IH]. }
    apply Hidle.
Qed.

Lemma resume_started st ws :
  List.length (filter started_fetch (map (resume st) ws))
  = List.length (filter awaits ws).
Proof.
  induction ws as [|[c [|]] ws IH]; cbn; [reflexivity | now rewrite IH | exact IH].
Qed.

Lemma filter_awaits_snoc ws c :
  List.length (filter awaits (ws ++ [(c, Returned)])) = List.length (filter awaits ws).
Proof. rewrite filter_app; cbn; now rewrite List.app_nil_r. Qed.

(** What every reachable system satisfies: the operation in flight has one
    caller that started it, and the fetches issued are the flights that have
    settled plus the one in flight. *)
Lemma serve_balance n sys r :
  (match inFlightUpdate sys with
   | Some ws => List.length (filter awaits ws) = 1%nat
   | None => True
   end
   /\ fetchCalls sys
      = (n + List.length (filter started_fetch (resolved sys))
         + match inFlightUpdate sys with Some _ => 1 | None => 0 end)%nat) ->
  match inFlightUpdate (serve sys r) with
  | Some ws => List.length (filter awaits ws) = 1%nat
  | None => True
  end
  /\ fetchCalls (serve sys r)
     = (n + List.length (filter started_fetch (resolved (serve sys r)))
        + match inFlightUpdate (serve sys r) with Some _ => 1 | None => 0 end)%nat.
Proof.
  intros [Hw Hf].
  assert (Hcall : forall c,
    match inFlightUpdate (step sys (CallRefresh c)) with
    | Some ws => List.length (filter awaits ws) = 1%nat
    | None => True
    end
    /\ fetchCalls (step sys (CallRefresh c))
       = (n + List.length (filter started_fetch (resolved (step sys (CallRefresh c))))
          + match inFlightUpdate (step sys (CallRefresh c)) with
            | Some _ => 1 | None => 0 end)%nat).
  { intros c; cbn [Server.step]; destruct (inFlightUpdate sys) as [ws|];
      cbn [inFlightUpdate fetchCalls resolved].
    - rewrite filter_awaits_snoc; split; [exact Hw | exact Hf].
    - split; [reflexivity | lia]. }
  destruct r as [[c|up now]|c]; cbn [Service.serve].
  - apply Hcall.
  - cbn [Server.step]; destruct (inFlightUpdate sys) as [ws|] eqn:E;
      cbn [inFlightUpdate fetchCalls resolved].
    + split; [exact I|].
      rewrite filter_app, List.length_app, resume_started, Hw; lia.
    + rewrite E; split; [exact I | exact Hf].
  - destruct (inFlightUpdate sys) as [ws|] eqn:E.
    + cbn [inFlightUpdate fetchCalls resolved].
      rewrite filter_awaits_snoc; split; [exact Hw | exact Hf].
    + destruct (vehicles (cache sys)).
      * specialize (Hcall c); cbn [Server.step] in Hcall; rewrite E in Hcall.
        cbn [Server.step]; rewrite E; exact Hcall.
      * rewrite E; split; [exact I | exact Hf].
Qed.

(** X29. At most one fetch is outstanding, under every interleaving of
    [refresh()] calls, requests and settlements: the fetches issued are as
    many as the flights that have settled (one caller resolved with the
    vehicle list for each), plus one when an operation is in flight. *)
Theorem fetches_balance :
  forall reqs st n,
    fetchCalls (fold_left serve reqs (idle st n))
    = (n + List.length
             (filter started_fetch (resolved (fold_left serve reqs (idle st n))))
       + match inFlightUpdate (fold_left serve reqs (idle st n)) with
         | Some _ => 1
         | None => 0
         end)%nat.
Proof.
  intros reqs st n.
  assert (H : forall sys,
    (match inFlightUpdate sys with
     | Some ws => List.length (filter awaits ws) = 1%nat
     | None => True
     end
     /\ fetchCalls sys
        = (n + List.length (filter started_fetch (resolved sys))
           + match inFlightUpdate sys with Some _ => 1 | None => 0 end)%nat) ->
    fetchCalls (fold_left serve reqs sys)
    = (n + List.length (filter started_fetch (resolved (fold_left serve reqs sys)))
       + match inFlightUpdate (fold_left serve reqs sys) with
         | Some _ => 1 | None => 0 end)%nat).
  { induction reqs as [|r reqs IH]; intros sys Hsys; [exact (proj2 Hsys)|].
    cbn [fold_left]; apply IH; now apply serve_balance. }
  apply H; cbn; split; [exact I | lia].
Qed.

Lemma run_flight st n res f :
  run (mkSystem st None n res) (flight_events f)
  = mkSystem (update st (fst (snd f)) (snd (snd f))) None (S n)
      (res ++ map (resume (update st (fst (snd f)) (snd (snd f))))
                ((fst (fst f), Awaits)
                   :: map (fun c => (c, Returned)) (snd (fst f)))).
Proof.
  destruct f as [[c cs] [up now]]; unfold flight_events; cbn [fst snd].
  rewrite app_comm_cons, run_app.
  rewrite (run_cons stringify sha1hex (mkSystem st None n res) (CallRefresh c)
             (map CallRefresh cs)).
  cbn [Server.step inFlightUpdate cache fetchCalls resolved].
  rewrite (run_calls_in_flight stringify sha1hex cs _ [(c, Awaits)]) by reflexivity.
  reflexivity.
Qed.

(** X30. The in-flight marker is released whatever the outcome: any number
    of flights one after the other, each with its own callers and each
    settling successfully or not, issue one fetch each, leave the state that
    the outcomes produce in turn, and leave no operation in flight. *)
Theorem flights_in_sequence :
  forall flights st n,
    fetchCalls (run (idle st n) (flat_map flight_events flights))
    = (n + List.length flights)%nat
    /\ cache (run (idle st n) (flat_map flight_events flights))
       = replay st (map snd flights)
    /\ inFlightUpdate (run (idle st n) (flat_map flight_events flights)) = None.
Proof.
  intros flights st n; unfold idle; generalize (@nil (nat * resolution)).
  revert st n; induction flights as [|f flights IH]; intros st n res.
  - cbn; repeat split; lia.
  - cbn [flat_map]; rewrite run_app, run_flight.
    destruct (IH (update st (fst (snd f)) (snd (snd f))) (S n)
                (res ++ map (resume (update st (fst (snd f)) (snd (snd f))))
                   ((fst (fst f), Awaits)
                      :: map (fun c => (c, Returned)) (snd (fst f)))))
      as (H1 & H2 & H3).
    rewrite H1, H2, H3; repeat split.
    cbn [List.length]; lia.
Qed.

End RequestFacts.

(** ** Instances of the handler and request properties on the sample feed *)


Lemma healthz_after_success_witness :
  fst (Service.healthz sample_sha1hex sample_toISOString sample_config
         sample_state 1500%Z) = 200%Z
  /\ fst (Service.healthz sample_sha1hex sample_toISOString sample_config
            sample_state 50000%Z) = 503%Z.
Proof.
  destruct (healthz_after_success sample_stringify sample_sha1hex
              sample_toISOString sample_config
              (Server.initial sample_sha1hex) 200%Z (str "OK") [sample_entity]
              1000%Z 1500%Z ltac:(discriminate)) as [Hok _].
  destruct (healthz_after_success sample_stringify sample_sha1hex
              sample_toISOString sample_config
              (Server.initial sample_sha1hex) 200%Z (str "OK") [sample_entity]
              1000%Z 50000%Z ltac:(discriminate)) as [_ Hstale].
  split; [apply Hok | apply Hstale]; cbn; lia.
Defined.

Lemma endpoints_agree_witness :
  Server.status
    (snd (Server.GET_positions sample_stringify sample_sha1hex
            sample_toISOString sample_config sample_state
            (Server.Rejected sample_error) 1200%Z 1500%Z None)) <> 503%Z
  /\ Server.header "X-Feed-Error"
       (Server.headers
          (snd (Server.GET_positions sample_stringify sample_sha1hex
                  sample_toISOString sample_config sample_state
                  (Server.Rejected sample_error) 1200%Z 1500%Z None))) = None
  /\ Server.header "X-Feed-Stale"
       (Server.headers
          (snd (Server.GET_positions sample_stringify sample_sha1hex
                  sample_toISOString sample_config sample_state
                  (Server.Rejected sample_error) 1200%Z 1500%Z None))) = None.
Proof.
  exact (proj1 (proj2 (endpoints_agree sample_stringify sample_sha1hex
                         sample_toISOString sample_config sample_state
                         (Server.Rejected sample_error) 1200%Z 1500%Z None))
           eq_refl).
Defined.

Lemma etag_everywhere_witness :
  Server.header "ETag"
    (Server.headers
       (Server.positions sample_sha1hex sample_toISOString sample_config
          sample_state 1500%Z None))
  = Some ([Server.quote] ++ str "1000-3" ++ [Server.quote]).
Proof.
  destruct (etag_everywhere sample_stringify sample_sha1hex sample_toISOString
              sample_config sample_state 1500%Z None) as [H _].
  rewrite H; reflexivity.
Defined.

Lemma stale_is_never_not_modified_witness :
  Server.status
    (Server.positions sample_sha1hex sample_toISOString sample_config
       sample_state 50000%Z
       (Some (Server.currentEtag sample_sha1hex sample_state))) = 503%Z
  /\ Server.header "Retry-After"
       (Server.headers
          (Server.positions sample_sha1hex sample_toISOString sample_config
             sample_state 50000%Z
             (Some (Server.currentEtag sample_sha1hex sample_state))))
     = Some (str "10").
Proof.
  destruct (stale_is_never_not_modified sample_sha1hex sample_toISOString
              sample_config sample_state 50000%Z
              (Some (Server.currentEtag sample_sha1hex sample_state)) eq_refl)
    as (H1 & _ & _ & _ & H2 & _).
  split; [exact H1 | rewrite H2; reflexivity].
Defined.

Lemma fresh_data_is_not_stale_witness :
  Server.isStale sample_config sample_state 21000%Z = false
  /\ (10000 <= 2 * Config.refreshIntervalMs sample_config)%Z.
Proof.
  destruct (fresh_data_is_not_stale sample_sha1hex sample_toISOString
              sample_options sample_config sample_state 21000%Z None eq_refl
              ltac:(discriminate) ltac:(cbn; lia)) as (H1 & _ & H2).
  split; [exact H1 | exact H2].
Defined.



Lemma empty_snapshot_is_refetched_witness :
  Server.consecutiveFailures
    (fst (Server.GET_positions sample_stringify sample_sha1hex sample_toISOString
            sample_config
            (Server.update sample_stringify sample_sha1hex
               (Server.initial sample_sha1hex)
               (Server.Response true 200%Z (str "OK")
                  (Server.Decoded [sample_entity_without_position])) 1000%Z)
            (Server.Rejected sample_error) 1200%Z 1500%Z None)) = 1%Z.
Proof.
  destruct (empty_snapshot_is_refetched sample_stringify sample_sha1hex
              sample_toISOString sample_config (Server.initial sample_sha1hex)
              200%Z (str "OK") [sample_entity_without_position] 1000%Z
              (Server.Rejected sample_error) 1200%Z 1500%Z None eq_refl)
    as [_ H].
  rewrite H; reflexivity.
Defined.

Lemma request_burst_witness :
  Server.fetchCalls
    (fold_left (Service.serve sample_stringify sample_sha1hex)
       (map Service.CallEnsureLatest [1; 2; 3]%nat)
       (Server.idle (Server.initial sample_sha1hex) 0)) = 1%nat
  /\ Server.fetchCalls
       (fold_left (Service.serve sample_stringify sample_sha1hex)
          (map Service.CallEnsureLatest [1; 2; 3]%nat)
          (Server.idle sample_state 0)) = 0%nat.
Proof.
  destruct (request_burst sample_stringify sample_sha1hex
              (Server.initial sample_sha1hex) 0 1%nat [2; 3]%nat) as [H _].
  destruct (request_burst sample_stringify sample_sha1hex
              sample_state 0 1%nat [2; 3]%nat) as [_ H'].
  split.
  - rewrite (H eq_refl); reflexivity.
  - rewrite (H' ltac:(discriminate)); reflexivity.
Defined.
